(** * lazyBot: the product scraper of [main.py]

    A shallow embedding of [sanitize_folder_name], [download_image] and the
    per-product pipeline of [main], with the browser, the network and the
    durable storage as explicit data, followed by the properties of the
    natural-language specification that were checked against it. *)

From Stdlib Require Import ZArith NArith List Ascii String Lia.
From Stdlib.Strings Require Import Byte.
From stdpp Require Import base tactics option list gmap strings pretty.

Local Open Scope N_scope.

(** ** Python strings

    A Python 3 [str] is a sequence of Unicode code points. *)

Abbreviation str := (list N).

Definition ord (a : ascii) : N := N_of_ascii a.

(** An ASCII literal as a [str]. *)
Definition lit (s : string) : str := map N_of_ascii (list_ascii_of_string s).

(** [str(i)] / the [{i}] of an f-string, for a non-negative integer. *)
Definition str_of_nat (i : nat) : str := lit (pretty i).

(** [Py_UNICODE_ISSPACE]: what [str.strip()] strips and what [\s] matches in
    a [str] pattern of [re]. *)
Definition isspace (c : N) : bool :=
  ((0x09 <=? c) && (c <=? 0x0D)) || ((0x1C <=? c) && (c <=? 0x20))
  || (c =? 0x85) || (c =? 0xA0) || (c =? 0x1680)
  || ((0x2000 <=? c) && (c <=? 0x200A))
  || (c =? 0x2028) || (c =? 0x2029) || (c =? 0x202F) || (c =? 0x205F)
  || (c =? 0x3000).

Fixpoint lstrip (s : str) : str :=
  match s with
  | [] => []
  | c :: s' => if isspace c then lstrip s' else s
  end.

Fixpoint rstrip (s : str) : str :=
  match s with
  | [] => []
  | c :: s' =>
      match rstrip s' with
      | [] => if isspace c then [] else [c]
      | r => c :: r
      end
  end.

(** [s.strip()] *)
Definition strip (s : str) : str := rstrip (lstrip s).

(** Truth value of a string: [if s:] *)
Definition truthy (s : str) : bool :=
  match s with [] => false | _ => true end.

(** [c in s] for a one-character [c] *)
Definition contains (c : N) (s : str) : bool := existsb (N.eqb c) s.

(** [s.split(sep)] for a one-character separator: never empty. *)
Fixpoint split (sep : N) (s : str) : list str :=
  match s with
  | [] => [[]]
  | c :: s' =>
      if c =? sep then [] :: split sep s'
      else match split sep s' with
           | l :: ls => (c :: l) :: ls
           | [] => [[c]]
           end
  end.

(** [s.split(sep, 1)]: at most one cut, at the first separator. *)
Fixpoint split1 (sep : N) (s : str) : list str :=
  match s with
  | [] => [[]]
  | c :: s' =>
      if c =? sep then [[]; s']
      else match split1 sep s' with
           | l :: ls => (c :: l) :: ls
           | [] => [[c]]
           end
  end.

(** [parts[i]] on a list of strings the code knows to be long enough. *)
Definition item (parts : list str) (i : nat) : str := nth i parts [].

(** [s.startswith(c)] and [s.endswith(c)] for a one-character [c] *)
Definition startswith (c : N) (s : str) : bool :=
  match s with
  | [] => false
  | c' :: _ => c' =? c
  end.

Definition endswith (c : N) (s : str) : bool :=
  match last s with
  | None => false
  | Some c' => c' =? c
  end.

Definition sep : N := ord "/".

(** [os.path.join(a, b)], as [posixpath] defines it. *)
Definition path_join (a b : str) : str :=
  if startswith sep b then b
  else if negb (truthy a) || endswith sep a then a ++ b
  else a ++ sep :: b.

(** ** [sanitize_folder_name] *)

(** The character class of the first [re.sub]: less-than, greater-than,
    colon, double quote (U+0022), slash, backslash, bar, question mark and
    star. *)
Definition invalid_chars : list N :=
  [ord "<"; ord ">"; ord ":"; 0x22; ord "/"; ord "\"; ord "|"; ord "?"; ord "*"].

Definition is_invalid (c : N) : bool := existsb (N.eqb c) invalid_chars.

(** The first [re.sub]: every character of the class is removed. *)
Definition remove_invalid (name : str) : str :=
  filter (λ c, is_invalid c = false) name.

(** [re.sub(r'\s+', ' ', name)]: every maximal run of whitespace becomes one
    space; [in_run] is set while the scanner is inside a run. *)
Fixpoint sub_spaces (in_run : bool) (name : str) : str :=
  match name with
  | [] => []
  | c :: rest =>
      if isspace c then
        if in_run then sub_spaces true rest else ord " " :: sub_spaces true rest
      else c :: sub_spaces false rest
  end.

Definition collapse_spaces (name : str) : str := sub_spaces false name.

Definition sanitize_folder_name (name : str) : str :=
  let name := remove_invalid name in
  let name := collapse_spaces name in
  let name := strip name in
  if (100 <? length name)%nat then take 100 name else name.

(** ** The record writer of step 3

    The body of the [with open(csv_filename, 'w') ...] block.  The rows given
    to [writer.writerow] are collected in order; the block performs no other
    effect and cannot fail, and the file holds the collected rows once the
    block is left. *)

Abbreviation row := (list str).

Definition writerow (rows : list row) (r : row) : list row := rows ++ [r].

Definition colon : N := ord ":".
Definition newline : N := 0x0A.

(** The two line loops of lines 224-233 and 237-246, which differ in the
    prefix of the fallback label only:
    [for i, line in enumerate(lines, 1): ...], entered with counter [i]. *)
Fixpoint write_lines (prefix : str) (i : nat) (lines : list str)
    (rows : list row) : list row :=
  match lines with
  | [] => rows
  | line :: rest =>
      let line := strip line in
      let rows :=
        if truthy line then
          if contains colon line then
            let parts := split1 colon line in
            writerow rows [strip (item parts 0); strip (item parts 1)]
          else
            writerow rows [prefix ++ lit " " ++ str_of_nat i; line]
        else rows in
      write_lines prefix (S i) rest rows
  end.

Definition write_record (product_name : str)
    (pricing_lines detail_lines : list str) : list row :=
  let rows := [] in
  let rows := writerow rows [lit "Field"; lit "Value"] in
  let rows := writerow rows [lit "Product Name"; product_name] in
  let rows :=
    match pricing_lines with
    | [] => rows
    | _ =>
        let rows := writerow rows [lit "=== PRICING ==="; []] in
        write_lines (lit "Price") 1 pricing_lines rows
    end in
  let rows := writerow rows [lit "=== DETAILS ==="; []] in
  write_lines (lit "Detail") 1 detail_lines rows.

(** ** Exceptions, console output and durable storage *)

(** The exception classes the code distinguishes, and two it does not name:
    [StaleElementReferenceException] stands for the other failures of the
    browser engine and [ConnectionError] for those of [requests].  All are
    subclasses of [Exception]. *)
Inductive exn :=
  | NoSuchElementException
  | ElementClickInterceptedException
  | TimeoutException
  | StaleElementReferenceException
  | ConnectionError.

Inductive result (A : Type) :=
  | Ok (a : A)
  | Raise (e : exn).
Arguments Ok {A} a.
Arguments Raise {A} e.

(** One constructor per [print] of the source (banners and blank lines are
    folded into the message they frame). *)
Inductive event :=
  | EvDownloaded (filename : str)
  | EvDownloadFailed (filename : str) (e : exn)
  | EvNavigating
  | EvSearching
  | EvFoundTiles (total_products_found : Z)
  | EvWillScrape (products_to_process : Z)
  | EvProcessing (index : nat)
  | EvExtractingName
  | EvNameEmpty (product_name : str)
  | EvProductName (product_name : str)
  | EvCreatedFolder (product_folder : str)
  | EvNoNameElement
  | EvStep1
  | EvNoMainImageUrl
  | EvNoImage
  | EvStep2
  | EvFoundSwatches (n : nat)
  | EvClickingSwatch (swatch_index : nat)
  | EvSwatchError (swatch_index : nat) (e : exn)
  | EvNoSwatches
  | EvNoSwatchList
  | EvStep3
  | EvFoundPricing
  | EvNoPricing
  | EvSavedDetails (csv_filename : str)
  | EvPreviewPricing (pricing_text : str)
  | EvPreviewDetails (detail_text : str)
  | EvNoItemDetail
  | EvCompleted (index : nat) (product_name product_folder : str)
  | EvProductError (index : nat) (e : exn)
  | EvFinished (products_to_process : Z)
  | EvTimeout
  | EvError (e : exn)
  | EvClosing
  | EvClosed.

(** What a file holds: the bytes of a downloaded image, or the rows of a
    record written through [csv.writer]. *)
Inductive file :=
  | ImageFile (content : list byte)
  | CsvFile (rows : list row).

(** The storage is total: creating a folder and writing a file succeed.
    [folders] collects the paths given to [os.makedirs]. *)
Record state := {
  files : gmap str file;
  folders : gset str;
  output : list event
}.

Definition M (A : Type) : Type := state → result A * state.

Global Instance M_ret : MRet M := λ A a st, (Ok a, st).

Global Instance M_bind : MBind M := λ A B f m st,
  match m st with
  | (Ok a, st') => f a st'
  | (Raise e, st') => (Raise e, st')
  end.

(** A call into the browser or the network, which returns or raises. *)
Definition call {A} (r : result A) : M A := λ st, (r, st).

Definition print (ev : event) : M unit := λ st,
  (Ok tt, {| files := files st; folders := folders st;
             output := output st ++ [ev] |}).

(** [with open(filename, 'wb' or 'w') as f: f.write(...)]: the file is
    created or replaced. *)
Definition write_file (filename : str) (f : file) : M unit := λ st,
  (Ok tt, {| files := <[filename := f]> (files st); folders := folders st;
             output := output st |}).

(** [os.makedirs(path, exist_ok=True)] *)
Definition makedirs (path : str) : M unit := λ st,
  (Ok tt, {| files := files st; folders := {[path]} ∪ folders st;
             output := output st |}).

(** [try: body except ...: handler]; the handler answers [None] for an
    exception that no [except] clause matches, which then propagates.  The
    effects of the body up to the exception are kept. *)
Definition try_except {A} (body : M A) (handler : exn → option (M A)) : M A :=
  λ st,
    match body st with
    | (Ok a, st') => (Ok a, st')
    | (Raise e, st') =>
        match handler e with
        | Some h => h st'
        | None => (Raise e, st')
        end
    end.

(** ** The browser and the network

    Every call the code makes into Selenium or [requests] is a field that
    holds what the call returns or the exception it raises.  Reading [.text]
    and [get_attribute] on an element that was found does not raise. *)

(** The [img] element: [get_attribute] answers [None] for a missing
    attribute. *)
Record WebImage := {
  src : option str;
  data_src : option str
}.

Record ImgWrapper := {
  find_img : result WebImage            (* find_element(By.TAG_NAME, "img") *)
}.

Record SwatchButton := {
  scroll_button : result unit;          (* execute_script(scrollIntoView, button) *)
  click : result unit;                  (* button.click() *)
  script_click : result unit;           (* execute_script(click, button) *)
  img_wrapper_after : result ImgWrapper (* the tile's img-wrapper once the button is active *)
}.

Record SwatchList := {
  find_buttons : result (list SwatchButton)
}.

Record ProductTile := {
  scroll_tile : result unit;
  find_product_name : result str;       (* the product-name element and its text *)
  find_img_wrapper : result ImgWrapper;
  find_swatch_lists : result (list SwatchList);
  find_item_detail : result str;        (* the item-detail element and its text *)
  find_item_pricing : result str        (* the item-pricing element and its text *)
}.

Record CatalogPage := {
  driver_get : result unit;
  product_tiles : list ProductTile
}.

Record Response := {
  status_code : Z;
  content : list byte
}.

(** [x or y] on two attribute values *)
Definition py_or (x y : option str) : option str :=
  match x with
  | Some (_ :: _) => x
  | _ => y
  end.

(** [l[:n]] *)
Definition slice_to {A} (l : list A) (n : Z) : list A :=
  if (n <? 0)%Z then take (Z.to_nat (Z.max 0 (n + Z.of_nat (length l)))) l
  else take (Z.to_nat n) l.

Section Scraper.

(** [requests.get(url, timeout=10)] *)
Variable requests_get : str → result Response.

Definition download_image (image_url filename : str) : M bool :=
  try_except
    (response ← call (requests_get image_url);
     if (status_code response =? 200)%Z then
       write_file filename (ImageFile (content response));;
       print (EvDownloaded filename);;
       mret true
     else mret false)
    (λ e, Some (print (EvDownloadFailed filename e);; mret false)).

(** Lines 96-121: the name, the folder name and the folder. *)
Definition resolve_name (tile : ProductTile) (index : nat) : M (str * str) :=
  print EvExtractingName;;
  try_except
    (text ← call (find_product_name tile);
     let product_name := strip text in
     product_name ←
       (if negb (truthy product_name) then
          let product_name := lit "Product_" ++ str_of_nat index in
          print (EvNameEmpty product_name);; mret product_name
        else
          print (EvProductName product_name);; mret product_name);
     let folder_name := sanitize_folder_name product_name in
     let product_folder := path_join (lit "scraped_products") folder_name in
     makedirs product_folder;;
     print (EvCreatedFolder product_folder);;
     mret (product_name, product_folder))
    (λ e,
      match e with
      | NoSuchElementException => Some (
          print EvNoNameElement;;
          let product_name := lit "Product_" ++ str_of_nat index in
          let folder_name := product_name in
          let product_folder := path_join (lit "scraped_products") folder_name in
          makedirs product_folder;;
          mret (product_name, product_folder))
      | _ => None
      end).

(** Lines 123-137 *)
Definition extract_main_image (tile : ProductTile) (product_folder : str) : M unit :=
  print EvStep1;;
  try_except
    (img_wrapper ← call (find_img_wrapper tile);
     img_element ← call (find_img img_wrapper);
     let main_image_url := py_or (src img_element) (data_src img_element) in
     match main_image_url with
     | Some (c :: url) =>
         let main_image_filename := path_join product_folder (lit "main_image.jpg") in
         download_image (c :: url) main_image_filename;; mret tt
     | _ => print EvNoMainImageUrl
     end)
    (λ e,
      match e with
      | NoSuchElementException => Some (print EvNoImage)
      | _ => None
      end).

(** Lines 147-150 *)
Fixpoint collect_buttons (swatch_lists : list SwatchList)
    (swatch_buttons : list SwatchButton) : M (list SwatchButton) :=
  match swatch_lists with
  | [] => mret swatch_buttons
  | swatch_list :: rest =>
      buttons ← call (find_buttons swatch_list);
      collect_buttons rest (swatch_buttons ++ buttons)
  end.

Definition swatch_filename (product_folder : str) (swatch_index : nat) : str :=
  path_join product_folder (lit "swatch_" ++ str_of_nat swatch_index ++ lit ".jpg").

(** Lines 162-166: the click, and the scripted click when the click is
    intercepted. *)
Definition activate (button : SwatchButton) : M unit :=
  try_except (call (click button))
    (λ e,
      match e with
      | ElementClickInterceptedException => Some (call (script_click button))
      | _ => None
      end).

(** Lines 170-177: the image shown once the control is active. *)
Definition capture_swatch_image (product_folder : str) (swatch_index : nat)
    (button : SwatchButton) : M unit :=
  img_wrapper ← call (img_wrapper_after button);
  img_element ← call (find_img img_wrapper);
  let swatch_image_url := py_or (src img_element) (data_src img_element) in
  match swatch_image_url with
  | Some (c :: url) =>
      let swatch_image_filename := swatch_filename product_folder swatch_index in
      download_image (c :: url) swatch_image_filename;; mret tt
  | _ => mret tt
  end.

(** Lines 155-181: the body of the swatch loop *)
Definition process_swatch (product_folder : str) (swatch_index : nat)
    (button : SwatchButton) : M unit :=
  try_except
    (call (scroll_button button);;
     print (EvClickingSwatch swatch_index);;
     activate button;;
     capture_swatch_image product_folder swatch_index button)
    (λ e, Some (print (EvSwatchError swatch_index e))).

(** [for swatch_index, button in enumerate(swatch_buttons, 1)], entered
    with counter [swatch_index]. *)
Fixpoint swatch_loop (product_folder : str) (swatch_index : nat)
    (swatch_buttons : list SwatchButton) : M unit :=
  match swatch_buttons with
  | [] => mret tt
  | button :: rest =>
      process_swatch product_folder swatch_index button;;
      swatch_loop product_folder (S swatch_index) rest
  end.

(** Lines 139-186 *)
Definition process_swatches (tile : ProductTile) (product_folder : str) : M unit :=
  print EvStep2;;
  try_except
    (swatch_lists ← call (find_swatch_lists tile);
     match swatch_lists with
     | _ :: _ =>
         swatch_buttons ← collect_buttons swatch_lists [];
         print (EvFoundSwatches (length swatch_buttons));;
         swatch_loop product_folder 1 swatch_buttons
     | [] => print EvNoSwatches
     end)
    (λ e,
      match e with
      | NoSuchElementException => Some (print EvNoSwatchList)
      | _ => None
      end).

(** Lines 188-255 *)
Definition extract_details (tile : ProductTile) (product_name product_folder : str)
    : M unit :=
  print EvStep3;;
  try_except
    (detail_text ← call (find_item_detail tile);
     pricing_text ←
       try_except
         (pricing_text ← call (find_item_pricing tile);
          print EvFoundPricing;; mret pricing_text)
         (λ e,
           match e with
           | NoSuchElementException => Some (print EvNoPricing;; mret [])
           | _ => None
           end);
     let csv_filename := path_join product_folder (lit "product_details.csv") in
     let detail_lines := split newline (strip detail_text) in
     let pricing_lines :=
       if truthy pricing_text then split newline (strip pricing_text) else [] in
     write_file csv_filename
       (CsvFile (write_record product_name pricing_lines detail_lines));;
     print (EvSavedDetails csv_filename);;
     (if truthy pricing_text then print (EvPreviewPricing pricing_text)
      else mret tt);;
     print (EvPreviewDetails
              (if (150 <? length detail_text)%nat
               then take 150 detail_text ++ lit "..." else detail_text)))
    (λ e,
      match e with
      | NoSuchElementException => Some (print EvNoItemDetail)
      | _ => None
      end).

(** Lines 91-260: what the loop of [main] does with one tile, inside its
    [try]. *)
Definition product_steps (index : nat) (tile : ProductTile) : M unit :=
  call (scroll_tile tile);;
  '(product_name, product_folder) ← resolve_name tile index;
  extract_main_image tile product_folder;;
  process_swatches tile product_folder;;
  extract_details tile product_name product_folder;;
  print (EvCompleted index product_name product_folder).

(** Lines 87-264: one iteration of the loop of [main]. *)
Definition process_product (index : nat) (tile : ProductTile) : M unit :=
  print (EvProcessing index);;
  try_except (product_steps index tile)
    (λ e, Some (print (EvProductError index e))).

(** [for index, tile in enumerate(..., 1)], entered with counter
    [index]. *)
Fixpoint product_loop (index : nat) (tiles : list ProductTile) : M unit :=
  match tiles with
  | [] => mret tt
  | tile :: rest =>
      process_product index tile;;
      product_loop (S index) rest
  end.

(** [wait.until(EC.presence_of_all_elements_located(...))]: the tiles once
    there is one, a timeout when there is none. *)
Definition wait_product_tiles (page : CatalogPage) : result (list ProductTile) :=
  match product_tiles page with
  | [] => Raise TimeoutException
  | tiles => Ok tiles
  end.

(** [main], from the navigation on, with the configured number of
    products as a parameter. *)
Definition main (NUMBER_OF_PRODUCTS_TO_SCRAPE : Z) (page : CatalogPage) : M unit :=
  try_except
    (print EvNavigating;;
     call (driver_get page);;
     print EvSearching;;
     product_tiles ← call (wait_product_tiles page);
     let total_products_found := Z.of_nat (length product_tiles) in
     print (EvFoundTiles total_products_found);;
     let products_to_process :=
       Z.min NUMBER_OF_PRODUCTS_TO_SCRAPE total_products_found in
     print (EvWillScrape products_to_process);;
     product_loop 1 (slice_to product_tiles products_to_process);;
     print (EvFinished products_to_process))
    (λ e,
      match e with
      | TimeoutException => Some (print EvTimeout)
      | _ => Some (print (EvError e))
      end);;
  print EvClosing;;
  print EvClosed.

End Scraper.

(** * What the properties are about *)

(** Line 14: the output directory exists before [main] runs. *)
Definition initial_state : state :=
  {| files := ∅; folders := {[lit "scraped_products"]}; output := [] |}.

(** A block of text to rows: line 208 (or 209) and the line loop. *)
Definition parse_block (prefix block : str) : list row :=
  write_lines prefix 1 (split newline (strip block)) [].

Definition nonblank (line : str) : bool := truthy (strip line).

(** The numbering as the specification words it: the ordinal of a fallback
    label counts the non-blank lines of the block only. *)
Fixpoint spec_write_lines (prefix : str) (n : nat) (lines : list str) : list row :=
  match lines with
  | [] => []
  | line :: rest =>
      let line := strip line in
      if truthy line then
        (if contains colon line then
           [strip (item (split1 colon line) 0); strip (item (split1 colon line) 1)]
         else [prefix ++ lit " " ++ str_of_nat n; line])
        :: spec_write_lines prefix (S n) rest
      else spec_write_lines prefix n rest
  end.

Definition spec_parse (prefix block : str) : list row :=
  spec_write_lines prefix 1 (split newline (strip block)).




(** ** The outcome of a control *)

Section Outcomes.
Variable requests_get : str → result Response.

(** The control was brought into view and activated, by the click or, when
    the click was intercepted, by the scripted click. *)
Definition activated (button : SwatchButton) : bool :=
  match scroll_button button with
  | Ok _ =>
      match click button with
      | Ok _ => true
      | Raise ElementClickInterceptedException =>
          match script_click button with
          | Ok _ => true
          | Raise _ => false
          end
      | Raise _ => false
      end
  | Raise _ => false
  end.

(** The non-empty source of the image under a wrapper, when there is one. *)
Definition image_url (wrapper : result ImgWrapper) : option str :=
  match wrapper with
  | Ok img_wrapper =>
      match find_img img_wrapper with
      | Ok img_element =>
          match py_or (src img_element) (data_src img_element) with
          | Some (c :: url) => Some (c :: url)
          | _ => None
          end
      | Raise _ => None
      end
  | Raise _ => None
  end.

(** The payload of a request answered with status 200. *)
Definition fetched (url : str) : option (list byte) :=
  match requests_get url with
  | Ok response =>
      if (status_code response =? 200)%Z then Some (content response)
      else None
  | Raise _ => None
  end.

(** The image captured after activating a control, when every step for
    the control succeeds. *)
Definition captured (button : SwatchButton) : option (list byte) :=
  if activated button then
    match image_url (img_wrapper_after button) with
    | Some url => fetched url
    | None => None
    end
  else None.

Definition save_image (filename : str) (image : option (list byte))
    (fs : gmap str file) : gmap str file :=
  match image with
  | Some content => <[filename := ImageFile content]> fs
  | None => fs
  end.

End Outcomes.

(** ** Runs *)

(** The state with more console output. *)
Definition with_output (st : state) (l : list event) : state :=
  {| files := files st; folders := folders st; output := output st ++ l |}.

(** Every exception a run raises satisfies [P]. *)
Definition raises_only {A} (P : exn → Prop) (m : M A) : Prop :=
  ∀ st e, (m st).1 = Raise e → P e.

Abbreviation no_raise m := (raises_only (λ _, False) m).

(** Every value a run returns satisfies [Q]. *)
Definition returns {A} (Q : A → Prop) (m : M A) : Prop :=
  ∀ st a, (m st).1 = Ok a → Q a.

(** The state before and the state after a run are related by [R]. *)
Definition keeps {A} (R : relation state) (m : M A) : Prop :=
  ∀ st, R st (m st).2.

(** The files outside [touched] are as before. *)
Definition writes_within (touched : str → Prop) : relation state :=
  λ st st', ∀ p, ¬ touched p → files st' !! p = files st !! p.

(** The output grows, by events that satisfy [P]. *)
Definition emits (P : event → Prop) : relation state :=
  λ st st', ∃ l, output st' = output st ++ l ∧ Forall P l.

Definition processing_index (ev : event) : option nat :=
  match ev with
  | EvProcessing index => Some index
  | _ => None
  end.

(** An event of the steps of one product: anything but the line that opens
    a product. *)
Definition step_event (ev : event) : Prop := processing_index ev = None.




(** ** Paths and names *)

(** What [path_join] puts before a relative second argument. *)
Definition join_prefix (a : str) : str :=
  if negb (truthy a) || endswith sep a then a else a ++ [sep].

(** The fixed points of the second substitution: every whitespace character
    is a single space; [in_run] is set right after a space. *)
Fixpoint collapsed (in_run : bool) (name : str) : bool :=
  match name with
  | [] => true
  | c :: rest =>
      if isspace c then (c =? ord " ") && negb in_run && collapsed true rest
      else collapsed false rest
  end.

(** A character the first substitution keeps. *)
Definition valid_char (c : N) : Prop := is_invalid c = false.

(** No whitespace at the start, none at the end. *)
Definition no_leading_space (name : str) : Prop :=
  ∀ c, head name = Some c → isspace c = false.

Definition no_trailing_space (name : str) : Prop :=
  ∀ c, last name = Some c → isspace c = false.

(** ** Scenarios *)

Definition shop : str → result Response := λ url,
  if decide (url = lit "http://shop/main.jpg")
  then Ok {| status_code := 200; content := [x01] |}
  else if decide (url = lit "http://shop/red.jpg")
  then Ok {| status_code := 200; content := [x02] |}
  else if decide (url = lit "http://shop/blue.jpg")
  then Ok {| status_code := 200; content := [x03] |}
  else Raise ConnectionError.

Definition image (url : string) : result ImgWrapper :=
  Ok {| find_img := Ok {| src := Some (lit url); data_src := None |} |}.

Definition control (url : string) : SwatchButton :=
  {| scroll_button := Ok tt; click := Ok tt; script_click := Ok tt;
     img_wrapper_after := image url |}.

(** A control whose click is intercepted and whose scripted click fails
    too. *)
Definition blocked_control : SwatchButton :=
  {| scroll_button := Ok tt;
     click := Raise ElementClickInterceptedException;
     script_click := Raise ElementClickInterceptedException;
     img_wrapper_after := image "http://shop/green.jpg" |}.

Definition chair_swatch_lists : list SwatchList :=
  [ {| find_buttons := Ok [control "http://shop/red.jpg"; blocked_control] |};
    {| find_buttons := Ok [control "http://shop/blue.jpg"] |} ].

Definition chair_details : str :=
  lit "Material: Fabric" ++ [newline] ++ lit "Weight: 20 lbs".

(** The product of the end-to-end example, with three controls in two
    groups of which the second fails. *)
Definition chair : ProductTile :=
  {| scroll_tile := Ok tt;
     find_product_name := Ok (lit "Test Chair");
     find_img_wrapper := image "http://shop/main.jpg";
     find_swatch_lists := Ok chair_swatch_lists;
     find_item_detail := Ok chair_details;
     find_item_pricing := Raise NoSuchElementException |}.


(** The same product without its item-detail element. *)
Definition bare_chair : ProductTile :=
  {| scroll_tile := Ok tt;
     find_product_name := Ok (lit "Test Chair");
     find_img_wrapper := image "http://shop/main.jpg";
     find_swatch_lists := Ok chair_swatch_lists;
     find_item_detail := Raise NoSuchElementException;
     find_item_pricing := Raise NoSuchElementException |}.


Definition ten_chairs : CatalogPage :=
  {| driver_get := Ok tt; product_tiles := replicate 10 chair |}.

(** A name of 101 characters whose hundredth is a space. *)
Definition long_name : str := replicate 99 (ord "a") ++ lit " b".


(** ** More definitions *)

(** A character that [sanitize_folder_name] drops wherever it stands alone:
    whitespace, or one of the removed characters. *)
Definition dropped_char (c : N) : bool := isspace c || is_invalid c.

(** A page that loads and shows no product tile. *)
Definition empty_page : CatalogPage :=
  {| driver_get := Ok tt; product_tiles := [] |}.

(** The product of the example when it cannot be scrolled into view. *)
Definition hidden_chair : ProductTile :=
  {| scroll_tile := Raise StaleElementReferenceException;
     find_product_name := Ok (lit "Test Chair");
     find_img_wrapper := image "http://shop/main.jpg";
     find_swatch_lists := Ok chair_swatch_lists;
     find_item_detail := Ok chair_details;
     find_item_pricing := Raise NoSuchElementException |}.

(** A decimal digit. *)
Definition is_digit (c : N) : bool := (ord "0" <=? c) && (c <=? ord "9").

(** The name and the folder of a product without a usable name. *)
Definition default_name (index : nat) : str := lit "Product_" ++ str_of_nat index.

(** The product of the example without its name element. *)
Definition anonymous_chair : ProductTile :=
  {| scroll_tile := Ok tt;
     find_product_name := Raise NoSuchElementException;
     find_img_wrapper := image "http://shop/main.jpg";
     find_swatch_lists := Ok chair_swatch_lists;
     find_item_detail := Ok chair_details;
     find_item_pricing := Raise NoSuchElementException |}.

(** The product of the example when its image is loaded lazily: the source
    is in [data-src] and [src] is empty. *)
Definition lazy_image : WebImage :=
  {| src := Some []; data_src := Some (lit "http://shop/main.jpg") |}.

Definition lazy_wrapper : ImgWrapper := {| find_img := Ok lazy_image |}.

Definition lazy_chair : ProductTile :=
  {| scroll_tile := Ok tt;
     find_product_name := Ok (lit "Test Chair");
     find_img_wrapper := Ok lazy_wrapper;
     find_swatch_lists := Ok [];
     find_item_detail := Ok chair_details;
     find_item_pricing := Raise NoSuchElementException |}.

(** A control whose click is intercepted and whose scripted click works. *)
Definition covered_control : SwatchButton :=
  {| scroll_button := Ok tt;
     click := Raise ElementClickInterceptedException;
     script_click := Ok tt;
     img_wrapper_after := image "http://shop/red.jpg" |}.

(** What a run adds to the state: the files it writes and the folders it
    creates, in order, and the lines it prints. *)
Record effect := {
  written : list (str * file);
  created : list str;
  printed : list event
}.

Definition write_all (fs : gmap str file) (ws : list (str * file)) : gmap str file :=
  foldl (λ fs w, <[w.1 := w.2]> fs) fs ws.

Definition create_all (ds : gset str) (cs : list str) : gset str :=
  foldl (λ ds d, {[d]} ∪ ds) ds cs.

Definition apply_effect (eff : effect) (st : state) : state :=
  {| files := write_all (files st) (written eff);
     folders := create_all (folders st) (created eff);
     output := output st ++ printed eff |}.

(** A run that does not look at the state: from every state it returns the
    same result and adds the same effect. *)
Definition blind {A} (m : M A) : Prop :=
  ∃ r eff, ∀ st, m st = (r, apply_effect eff st).

Definition no_effect : effect := {| written := []; created := []; printed := [] |}.

Definition then_effect (e1 e2 : effect) : effect :=
  {| written := written e1 ++ written e2;
     created := created e1 ++ created e2;
     printed := printed e1 ++ printed e2 |}.

(** A file directly in a folder: the folder joined with a name without
    separator. *)
Definition in_folder (folder p : str) : Prop :=
  ∃ name, contains sep name = false ∧ p = path_join folder name.

(** Every file of the storage is directly in a folder that was created. *)
Definition files_in_created_folders (st : state) : Prop :=
  ∀ p, is_Some (files st !! p) →
       ∃ folder, folder ∈ folders st ∧ in_folder folder p.

(** Folders are only added, and once [folder] exists the new files are
    directly in it. *)
Definition fills (folder : str) : relation state :=
  λ st st',
    folders st ⊆ folders st'
    ∧ (folder ∈ folders st →
       ∀ p, is_Some (files st' !! p) →
            is_Some (files st !! p) ∨ in_folder folder p).

(** An invariant of the state, as a relation between the state before and
    the state after. *)
Definition preserves (I : state → Prop) : relation state :=
  λ st st', I st → I st'.

(** ** The framing lines of a product *)















(** * Reasoning about runs *)

Ltac unfold_M :=
  unfold mbind, M_bind, mret, M_ret, call, print, write_file, makedirs,
    try_except in *.

(** ** Which exceptions escape *)

Section RaisesOnly.
Context {A B : Type} (P : exn → Prop).

Lemma raises_only_ret (a : A) : raises_only P (mret a).
Proof. by intros st e. Qed.


Lemma raises_only_bind (m : M A) (f : A → M B) :
  raises_only P m → (∀ a, raises_only P (f a)) → raises_only P (m ≫= f).
Proof.
  intros Hm Hf st e. unfold_M.
  specialize (Hm st). destruct (m st) as [[a|e'] st']; cbn in *.
  - apply Hf.
  - intros [= ->]. by apply Hm.
Qed.

Lemma raises_only_try (P' : exn → Prop) (body : M A) handler :
  raises_only P' body →
  (∀ e, P' e →
     match handler e with
     | Some h => raises_only P h
     | None => P e
     end) →
  raises_only P (try_except body handler).
Proof.
  intros Hb Hh st e. unfold_M.
  specialize (Hb st). destruct (body st) as [[a|e'] st']; cbn in *; [done|].
  specialize (Hh e' (Hb _ eq_refl)).
  destruct (handler e'); cbn; [apply Hh|]. by intros [= <-].
Qed.
End RaisesOnly.


Lemma raises_only_print P ev : raises_only P (print ev).
Proof. by intros st e. Qed.

Lemma raises_only_write_file P filename f : raises_only P (write_file filename f).
Proof. by intros st e. Qed.

Lemma raises_only_makedirs P path : raises_only P (makedirs path).
Proof. by intros st e. Qed.

Lemma no_raise_run (m : M unit) st :
  no_raise m → m st = (Ok tt, (m st).2).
Proof.
  intros H. specialize (H st). destruct (m st) as [[[]|e] st']; [done|].
  by destruct (H e).
Qed.

(** ** Relations between the state before and after a run *)

Section Keeps.
Context (R : relation state) `{!PreOrder R}.
Context {A B : Type}.

Lemma keeps_ret (a : A) : keeps R (mret a).
Proof. intros st. done. Qed.

Lemma keeps_call (r : result A) : keeps R (call r).
Proof. intros st. done. Qed.

Lemma keeps_bind (m : M A) (f : A → M B) :
  keeps R m → (∀ a, keeps R (f a)) → keeps R (m ≫= f).
Proof.
  intros Hm Hf st. unfold_M.
  specialize (Hm st). destruct (m st) as [[a|e] st']; cbn in *; [|done].
  etrans; [done|]. apply Hf.
Qed.

Lemma keeps_try (body : M A) handler :
  keeps R body →
  (∀ e h, handler e = Some h → keeps R h) →
  keeps R (try_except body handler).
Proof.
  intros Hb Hh st. unfold_M.
  specialize (Hb st). destruct (body st) as [[a|e] st']; cbn in *; [done|].
  destruct (handler e) as [h|] eqn:He; [|done].
  etrans; [done|]. by eapply Hh.
Qed.
End Keeps.

Global Instance writes_within_preorder touched : PreOrder (writes_within touched).
Proof.
  split.
  - by intros st p.
  - intros st1 st2 st3 H12 H23 p Hp. by rewrite H23, H12.
Qed.

Global Instance emits_preorder P : PreOrder (emits P).
Proof.
  split.
  - intros st. exists []. by rewrite app_nil_r.
  - intros st1 st2 st3 (l1 & H1 & HP1) (l2 & H2 & HP2). exists (l1 ++ l2).
    rewrite H2, H1, app_assoc. split; [done|]. by apply Forall_app.
Qed.

Lemma keeps_print_writes touched ev : keeps (writes_within touched) (print ev).
Proof. by intros st p. Qed.

Lemma keeps_makedirs_writes touched path : keeps (writes_within touched) (makedirs path).
Proof. by intros st p. Qed.

Lemma keeps_write_file_writes (touched : str → Prop) filename f :
  touched filename → keeps (writes_within touched) (write_file filename f).
Proof.
  intros Hf st p Hp; cbn. apply lookup_insert_ne. by intros ->.
Qed.

Lemma keeps_print_emits (P : event → Prop) ev : P ev → keeps (emits P) (print ev).
Proof. intros HP st. exists [ev]. split; [done|]. by constructor. Qed.

Lemma keeps_makedirs_emits P path : keeps (emits P) (makedirs path).
Proof. intros st. exists []. by rewrite app_nil_r. Qed.

Lemma keeps_write_file_emits P filename f : keeps (emits P) (write_file filename f).
Proof. intros st. exists []. by rewrite app_nil_r. Qed.

(** Syntax-directed decomposition of a goal about a run. *)
Ltac run_step :=
  match goal with
  | |- keeps _ (mret _) => apply keeps_ret; try apply _
  | |- keeps _ (call _) => apply keeps_call; try apply _
  | |- keeps _ (_ ≫= _) => apply keeps_bind; [apply _| |intros ?]
  | |- keeps _ (try_except _ _) =>
      apply keeps_try; [apply _| |intros [] ? ?; simplify_eq/=]
  | |- keeps (writes_within _) (print _) => apply keeps_print_writes
  | |- keeps (writes_within _) (makedirs _) => apply keeps_makedirs_writes
  | |- keeps (writes_within _) (write_file _ _) => apply keeps_write_file_writes
  | |- keeps (emits _) (print _) => apply keeps_print_emits
  | |- keeps (emits _) (makedirs _) => apply keeps_makedirs_emits
  | |- keeps (emits _) (write_file _ _) => apply keeps_write_file_emits
  | |- raises_only _ (mret _) => apply raises_only_ret
  | |- raises_only _ (print _) => apply raises_only_print
  | |- raises_only _ (makedirs _) => apply raises_only_makedirs
  | |- raises_only _ (write_file _ _) => apply raises_only_write_file
  | |- raises_only _ (_ ≫= _) => apply raises_only_bind; [|intros ?]
  | |- _ (match ?x with _ => _ end) => destruct x
  | |- _ (let '(_, _) := ?x in _) => destruct x
  end.

Section ScraperFacts.
Variable requests_get : str → result Response.

Lemma download_image_writes (touched : str → Prop) image_url filename :
  touched filename →
  keeps (writes_within touched) (download_image requests_get image_url filename).
Proof. intros. unfold download_image. repeat run_step; done. Qed.

Lemma download_image_emits (P : event → Prop) image_url filename :
  P (EvDownloaded filename) → (∀ e, P (EvDownloadFailed filename e)) →
  keeps (emits P) (download_image requests_get image_url filename).
Proof. intros. unfold download_image. repeat run_step; done. Qed.


End ScraperFacts.

(** ** Paths *)

Lemma lit_inj s1 s2 : lit s1 = lit s2 → s1 = s2.
Proof.
  unfold lit. intros H.
  rewrite <- (string_of_list_ascii_of_string s1), <- (string_of_list_ascii_of_string s2).
  f_equal. revert H.
  generalize (list_ascii_of_string s1) (list_ascii_of_string s2).
  induction l as [|a l IH]; intros [|b l'] [=]; [done|].
  f_equal; [|by apply IH].
  rewrite <- (ascii_N_embedding a), <- (ascii_N_embedding b). by f_equal.
Qed.

Lemma str_of_nat_inj i j : str_of_nat i = str_of_nat j → i = j.
Proof. intros H. apply lit_inj in H. by apply (inj pretty) in H. Qed.

Lemma path_join_relative a b :
  startswith sep b = false → path_join a b = join_prefix a ++ b.
Proof.
  intros Hb. unfold path_join, join_prefix. rewrite Hb.
  destruct (negb (truthy a) || endswith sep a); [done|].
  by rewrite <- app_assoc.
Qed.

Lemma path_join_last a b : b ≠ [] → last (path_join a b) = last b.
Proof.
  intros Hb. unfold path_join.
  destruct (startswith sep b); [done|].
  destruct b as [|c b]; [done|].
  destruct (negb (truthy a) || endswith sep a).
  - by rewrite last_app_cons.
  - by rewrite last_app_cons, last_cons_cons.
Qed.

Lemma swatch_filename_inj product_folder i j :
  swatch_filename product_folder i = swatch_filename product_folder j → i = j.
Proof.
  unfold swatch_filename. rewrite !path_join_relative by done.
  intros H. apply (inj (app _)) in H. apply (inj (app _)) in H.
  apply (inj (λ s, s ++ lit ".jpg")) in H. by apply str_of_nat_inj.
Qed.

Lemma image_is_not_record a b name :
  last name = Some (ord "g") →
  path_join a name ≠ path_join b (lit "product_details.csv").
Proof.
  intros Hg H. apply (f_equal last) in H.
  rewrite (path_join_last a) in H by (by intros ->).
  rewrite (path_join_last b) in H by done.
  rewrite Hg in H. vm_compute in H. congruence.
Qed.

Lemma main_image_is_not_record a b :
  path_join a (lit "main_image.jpg") ≠ path_join b (lit "product_details.csv").
Proof. by apply image_is_not_record. Qed.

Lemma swatch_is_not_record a b i :
  swatch_filename a i ≠ path_join b (lit "product_details.csv").
Proof.
  apply image_is_not_record.
  by rewrite app_assoc, (last_app _ (lit ".jpg")).
Qed.


(** ** Record rows *)

Lemma write_lines_acc prefix i lines rows :
  write_lines prefix i lines rows = rows ++ write_lines prefix i lines [].
Proof.
  revert i rows. induction lines as [|line rest IH]; intros i rows;
    cbn [write_lines].
  { by rewrite app_nil_r. }
  unfold writerow.
  destruct (truthy (strip line)); [|done].
  destruct (contains colon (strip line));
    rewrite (IH _ (rows ++ _)), (IH _ ([] ++ _));
    exact (eq_sym (app_assoc rows [_] _)).
Qed.

Lemma write_lines_app prefix i lines1 lines2 :
  write_lines prefix i (lines1 ++ lines2) []
  = write_lines prefix i lines1 []
    ++ write_lines prefix (i + length lines1) lines2 [].
Proof.
  revert i. induction lines1 as [|line rest IH]; intros i;
    cbn [write_lines app length].
  { by rewrite Nat.add_0_r. }
  rewrite Nat.add_succ_r. unfold writerow.
  destruct (truthy (strip line)); [|apply IH].
  destruct (contains colon (strip line));
    rewrite write_lines_acc, IH, (write_lines_acc _ _ rest ([] ++ _));
    exact (app_assoc [_] _ _).
Qed.

Lemma write_lines_length prefix i lines :
  length (write_lines prefix i lines [])
  = length (filter (λ l, nonblank l = true) lines).
Proof.
  revert i. induction lines as [|line rest IH]; intros i; [done|].
  rewrite filter_cons. cbn [write_lines]. unfold writerow.
  case_decide as Hline; unfold nonblank in Hline.
  - rewrite Hline. cbn [length]. rewrite <- (IH (S i)).
    destruct (contains colon (strip line));
      by rewrite write_lines_acc, length_app.
  - apply not_true_is_false in Hline. rewrite Hline. apply IH.
Qed.


(** C2, as amended: the ordinal in a fallback label is the position of the
    line among all the lines of the trimmed block, blank ones included.  The
    row of line [i + 1] comes after the rows of the non-blank lines before
    it and is labelled with the prefix and [i + 1]. *)
Theorem fallback_label_is_line_number prefix block i line :
  let lines := split newline (strip block) in
  lines !! i = Some line →
  nonblank line = true →
  contains colon (strip line) = false →
  parse_block prefix block
    !! length (filter (λ l, nonblank l = true) (take i lines))
  = Some [prefix ++ lit " " ++ str_of_nat (S i); strip line].
Proof.
  intros lines Hi Hline Hcolon. unfold parse_block. fold lines.
  replace (write_lines prefix 1 lines [])
    with (write_lines prefix 1 (take i lines ++ line :: drop (S i) lines) [])
    by (by rewrite take_drop_middle).
  rewrite write_lines_app. cbn [write_lines].
  unfold nonblank in Hline. rewrite Hline, Hcolon.
  rewrite length_take_le by (apply Nat.lt_le_incl; by eapply lookup_lt_Some).
  rewrite (write_lines_acc _ _ (drop (S i) lines)). unfold writerow.
  rewrite <- (write_lines_length prefix 1).
  rewrite lookup_app_r by done. rewrite Nat.sub_diag. reflexivity.
Qed.

Lemma fallback_label_is_line_number_witness :
  parse_block (lit "Detail") (lit "a" ++ [newline; newline] ++ lit "b") !! 1%nat
  = Some [lit "Detail 3"; lit "b"].
Proof.
  apply (fallback_label_is_line_number (lit "Detail")
           (lit "a" ++ [newline; newline] ++ lit "b") 2 (lit "b"));
    reflexivity.
Defined.

(** C2, as stated, fails: with a blank line between two colon-free lines,
    the second one is labelled 3 and not 2. *)
Lemma fallback_label_counts_blank_lines :
  let block := lit "a" ++ [newline; newline] ++ lit "b" in
  parse_block (lit "Detail") block
    = [[lit "Detail 1"; lit "a"]; [lit "Detail 3"; lit "b"]]
  ∧ spec_parse (lit "Detail") block
    = [[lit "Detail 1"; lit "a"]; [lit "Detail 2"; lit "b"]]
  ∧ parse_block (lit "Detail") block ≠ spec_parse (lit "Detail") block.
Proof. vm_compute. repeat split; congruence. Qed.


(** ** [download_image] *)




(** ** Step 3: the record *)



(** ** What a run returns *)

Lemma keeps_bind_returns {A B} (R : relation state) `{!PreOrder R}
    (Q : A → Prop) (m : M A) (f : A → M B) :
  keeps R m → returns Q m → (∀ a, Q a → keeps R (f a)) → keeps R (m ≫= f).
Proof.
  intros Hm HQ Hf st. unfold_M.
  specialize (Hm st). specialize (HQ st).
  destruct (m st) as [[a|e] st']; cbn in *; [|done].
  etrans; [done|]. by apply Hf, HQ.
Qed.

Section Frames.
Variable requests_get : str → result Response.
Variable touched : str → Prop.

Lemma resolve_name_writes tile index :
  keeps (writes_within touched) (resolve_name tile index).
Proof. unfold resolve_name. repeat run_step. Qed.

Lemma extract_main_image_writes tile product_folder :
  touched (path_join product_folder (lit "main_image.jpg")) →
  keeps (writes_within touched)
    (extract_main_image requests_get tile product_folder).
Proof.
  intros. unfold extract_main_image.
  repeat first [by apply download_image_writes | run_step].
Qed.

Lemma collect_buttons_writes swatch_lists swatch_buttons :
  keeps (writes_within touched) (collect_buttons swatch_lists swatch_buttons).
Proof.
  revert swatch_buttons.
  induction swatch_lists as [|swatch_list rest IH]; intros swatch_buttons;
    cbn [collect_buttons]; repeat first [apply IH | run_step].
Qed.

Lemma process_swatch_writes product_folder swatch_index button :
  touched (swatch_filename product_folder swatch_index) →
  keeps (writes_within touched)
    (process_swatch requests_get product_folder swatch_index button).
Proof.
  intros. unfold process_swatch, activate, capture_swatch_image.
  repeat first [by apply download_image_writes | run_step].
Qed.

Lemma swatch_loop_writes product_folder swatch_index swatch_buttons :
  (∀ k, (swatch_index ≤ k < swatch_index + length swatch_buttons)%nat →
        touched (swatch_filename product_folder k)) →
  keeps (writes_within touched)
    (swatch_loop requests_get product_folder swatch_index swatch_buttons).
Proof.
  revert swatch_index.
  induction swatch_buttons as [|button rest IH]; intros swatch_index Hk;
    cbn [swatch_loop length] in *; [by run_step|].
  apply keeps_bind; [apply _| |intros _].
  - apply process_swatch_writes, Hk. lia.
  - apply IH. intros k ?. apply Hk. lia.
Qed.

Lemma process_swatches_writes tile product_folder :
  (∀ k, touched (swatch_filename product_folder k)) →
  keeps (writes_within touched)
    (process_swatches requests_get tile product_folder).
Proof.
  intros. unfold process_swatches.
  repeat first [by apply swatch_loop_writes | apply collect_buttons_writes
               | run_step].
Qed.


End Frames.

(** ** One product *)

Section Product.
Variable requests_get : str → result Response.

(** The steps after the name is resolved write within the product folder,
    and step 3 only under the name of the record. *)
Lemma product_steps_writes (touched : str → Prop) (Q : str * str → Prop)
    index tile :
  returns Q (resolve_name tile index) →
  (∀ product_name product_folder, Q (product_name, product_folder) →
     touched (path_join product_folder (lit "main_image.jpg"))
     ∧ (∀ k, touched (swatch_filename product_folder k))
     ∧ keeps (writes_within touched)
         (extract_details tile product_name product_folder)) →
  keeps (writes_within touched) (process_product requests_get index tile).
Proof.
  intros HQ Hfolder. unfold process_product, product_steps.
  apply keeps_bind; [apply _|apply keeps_print_writes|intros _].
  apply keeps_try; [apply _| |intros e h [= <-]; apply keeps_print_writes].
  apply keeps_bind; [apply _|apply keeps_call, _|intros _].
  eapply keeps_bind_returns; [apply _|apply resolve_name_writes|exact HQ|].
  intros [product_name product_folder] Ha.
  destruct (Hfolder _ _ Ha) as (Hmain & Hswatch & Hdetails).
  repeat first [ by apply extract_main_image_writes
               | by apply process_swatches_writes
               | exact Hdetails | run_step ].
Qed.

Lemma extract_details_absent tile product_name product_folder st :
  find_item_detail tile = Raise NoSuchElementException →
  let run := extract_details tile product_name product_folder st in
  run.1 = Ok tt
  ∧ files run.2 = files st
  ∧ output run.2 = output st ++ [EvStep3; EvNoItemDetail].
Proof.
  intros Hdetail run; subst run. unfold extract_details; unfold_M.
  rewrite Hdetail. cbn [fst snd files output].
  by rewrite <- app_assoc.
Qed.

(** C10: without the item-detail element step 3 returns normally, reports
    the missing element and leaves every file as it was, so the images of
    the earlier steps stay; and over the whole product no file with the
    name of the record, in any folder, is created or changed. *)
Theorem no_record_without_detail index tile product_name product_folder st :
  find_item_detail tile = Raise NoSuchElementException →
  (let run := extract_details tile product_name product_folder st in
   run.1 = Ok tt
   ∧ files run.2 = files st
   ∧ output run.2 = output st ++ [EvStep3; EvNoItemDetail])
  ∧ ∀ folder,
      files (process_product requests_get index tile st).2
        !! path_join folder (lit "product_details.csv")
      = files st !! path_join folder (lit "product_details.csv").
Proof.
  intros Hdetail. split; [by apply extract_details_absent|].
  intros folder.
  apply (product_steps_writes
           (λ p, ∀ b, p ≠ path_join b (lit "product_details.csv"))
           (λ _, True)); [done| |by intros H; apply (H folder)].
  intros name product_folder' _. split; [|split].
  - intros b. apply main_image_is_not_record.
  - intros k b. apply swatch_is_not_record.
  - intros st' p _.
    by destruct (extract_details_absent tile name product_folder' st' Hdetail)
      as (_ & -> & _).
Qed.


End Product.

(** ** The files of a control *)

Section Captured.
Variable requests_get : str → result Response.

Lemma download_image_files image_url filename st :
  files (download_image requests_get image_url filename st).2
  = save_image filename (fetched requests_get image_url) (files st).
Proof.
  unfold download_image, fetched, save_image; unfold_M.
  destruct (requests_get image_url) as [response|e]; [|done].
  by destruct (status_code response =? 200)%Z.
Qed.

Lemma extract_main_image_saves tile product_folder st :
  files (extract_main_image requests_get tile product_folder st).2
  = save_image (path_join product_folder (lit "main_image.jpg"))
      (match image_url (find_img_wrapper tile) with
       | Some url => fetched requests_get url
       | None => None
       end) (files st).
Proof.
  unfold extract_main_image, image_url.
  unfold mbind, M_bind, mret, M_ret, call, print, try_except.
  destruct (find_img_wrapper tile) as [img_wrapper|[]]; try done.
  destruct (find_img img_wrapper) as [img_element|[]]; try done.
  destruct (py_or (src img_element) (data_src img_element)) as [[|c url]|];
    [done| |done].
  set (st1 := {| files := files st; folders := folders st;
                 output := output st ++ [EvStep1] |}).
  pose proof (download_image_files (c :: url)
                (path_join product_folder (lit "main_image.jpg")) st1) as Hsaved.
  by destruct (download_image _ _ _ st1) as [[b|[]] st2].
Qed.

Lemma activate_run button st :
  activate button st
  = (match click button with
     | Raise ElementClickInterceptedException => script_click button
     | r => r
     end, st).
Proof.
  unfold activate; unfold_M. by destruct (click button) as [[]|[]].
Qed.

Lemma capture_swatch_image_files product_folder swatch_index button st :
  files (capture_swatch_image requests_get product_folder swatch_index button st).2
  = save_image (swatch_filename product_folder swatch_index)
      (match image_url (img_wrapper_after button) with
       | Some url => fetched requests_get url
       | None => None
       end) (files st).
Proof.
  unfold capture_swatch_image, image_url.
  unfold mbind, M_bind, mret, M_ret, call.
  destruct (img_wrapper_after button) as [img_wrapper|e]; [|done].
  destruct (find_img img_wrapper) as [img_element|e]; [|done].
  destruct (py_or (src img_element) (data_src img_element)) as [[|c url]|];
    [done| |done].
  rewrite <- download_image_files.
  by destruct (download_image _ _ _ st) as [[b|e] st'].
Qed.

Lemma process_swatch_files product_folder swatch_index button st :
  files (process_swatch requests_get product_folder swatch_index button st).2
  = save_image (swatch_filename product_folder swatch_index)
      (captured requests_get button) (files st).
Proof.
  unfold process_swatch, captured, activated.
  unfold mbind, M_bind, mret, M_ret, call, print, try_except.
  destruct (scroll_button button) as [[]|e]; [|done].
  rewrite activate_run.
  set (st1 := {| files := files st; folders := folders st;
                 output := output st ++ [EvClickingSwatch swatch_index] |}).
  pose proof (capture_swatch_image_files product_folder swatch_index button st1)
    as Hcapture.
  destruct (capture_swatch_image _ _ _ _ st1) as [[[]|e] st2];
    destruct (click button) as [[]|[]]; try done;
    destruct (script_click button) as [[]|e']; done.
Qed.

End Captured.

(** ** The swatch loop *)

Section SwatchLoop.
Variable requests_get : str → result Response.

Lemma save_image_lookup filename image fs :
  save_image filename image fs !! filename
  = match image with
    | Some content => Some (ImageFile content)
    | None => fs !! filename
    end.
Proof. destruct image; [apply lookup_insert_eq|done]. Qed.

Lemma save_image_lookup_ne filename image fs p :
  p ≠ filename → save_image filename image fs !! p = fs !! p.
Proof. intros. destruct image; [by apply lookup_insert_ne|done]. Qed.

Lemma process_swatch_no_raise product_folder swatch_index button :
  no_raise (process_swatch requests_get product_folder swatch_index button).
Proof.
  unfold process_swatch. apply raises_only_try with (P' := λ _, True).
  - by intros st e.
  - intros e _. apply raises_only_print.
Qed.

Lemma swatch_loop_cons product_folder swatch_index button rest st :
  swatch_loop requests_get product_folder swatch_index (button :: rest) st
  = swatch_loop requests_get product_folder (S swatch_index) rest
      (process_swatch requests_get product_folder swatch_index button st).2.
Proof.
  cbn [swatch_loop]. unfold mbind, M_bind.
  by rewrite (no_raise_run _ st (process_swatch_no_raise _ _ _)).
Qed.

Lemma swatch_loop_no_raise product_folder swatch_index swatch_buttons :
  no_raise (swatch_loop requests_get product_folder swatch_index swatch_buttons).
Proof.
  revert swatch_index.
  induction swatch_buttons as [|button rest IH]; intros swatch_index;
    cbn [swatch_loop]; [by run_step|].
  apply raises_only_bind; [apply process_swatch_no_raise|intros _; apply IH].
Qed.

Lemma swatch_loop_lookup product_folder swatch_buttons :
  ∀ swatch_index st k button,
    swatch_buttons !! k = Some button →
    files (swatch_loop requests_get product_folder swatch_index
             swatch_buttons st).2
      !! swatch_filename product_folder (swatch_index + k)
    = match captured requests_get button with
      | Some content => Some (ImageFile content)
      | None => files st !! swatch_filename product_folder (swatch_index + k)
      end.
Proof.
  induction swatch_buttons as [|first rest IH];
    intros swatch_index st k button Hk; [done|].
  rewrite swatch_loop_cons.
  destruct k as [|k]; simplify_eq/=.
  - rewrite Nat.add_0_r.
    rewrite (swatch_loop_writes requests_get
               (λ p, ∃ j, (S swatch_index ≤ j)%nat
                          ∧ p = swatch_filename product_folder j)).
    + by rewrite process_swatch_files, save_image_lookup.
    + intros j ?. exists j. split; [lia|done].
    + intros (j & ? & Hj). apply swatch_filename_inj in Hj. lia.
  - rewrite Nat.add_succ_r, <- Nat.add_succ_l.
    rewrite (IH _ _ _ _ Hk).
    rewrite process_swatch_files, save_image_lookup_ne; [done|].
    intros Hj. apply swatch_filename_inj in Hj. lia.
Qed.

Lemma collect_buttons_run swatch_lists groups :
  Forall2 (λ swatch_list buttons, find_buttons swatch_list = Ok buttons)
    swatch_lists groups →
  ∀ swatch_buttons st,
    collect_buttons swatch_lists swatch_buttons st
    = (Ok (swatch_buttons ++ concat groups), st).
Proof.
  induction 1 as [|swatch_list buttons rest groups Hbuttons _ IH];
    intros swatch_buttons st; cbn [collect_buttons concat].
  - by rewrite app_nil_r.
  - unfold mbind, M_bind, call. by rewrite Hbuttons, IH, app_assoc.
Qed.

Lemma process_swatches_loop tile product_folder swatch_lists groups st :
  find_swatch_lists tile = Ok swatch_lists →
  Forall2 (λ swatch_list buttons, find_buttons swatch_list = Ok buttons)
    swatch_lists groups →
  ∃ st1,
    files st1 = files st
    ∧ (process_swatches requests_get tile product_folder st).2
      = (swatch_loop requests_get product_folder 1 (concat groups) st1).2.
Proof.
  intros Hlists Hgroups. unfold process_swatches.
  unfold mbind, M_bind, mret, M_ret, call, print, try_except.
  rewrite Hlists. destruct Hgroups as [|swatch_list buttons rest groups ? ?].
  - eexists. split; [|reflexivity]. done.
  - erewrite collect_buttons_run by (by constructor).
    eexists. split; [|by rewrite (no_raise_run _ _ (swatch_loop_no_raise _ _ _))].
    done.
Qed.

(** C5: the image captured after activating the control at position
    [k + 1] of the discovery order, all groups of the tile taken together,
    is what [swatch_<k+1>.jpg] holds after the loop; a control for which
    nothing is captured leaves the file of its own ordinal as it was and
    shifts no other control; no other file changes.  With three controls
    of which only the second fails, exactly [swatch_1.jpg] and
    [swatch_3.jpg] are written. *)
Theorem swatch_files_numbered_by_discovery tile product_folder swatch_lists
    groups st :
  find_swatch_lists tile = Ok swatch_lists →
  Forall2 (λ swatch_list buttons, find_buttons swatch_list = Ok buttons)
    swatch_lists groups →
  let swatch_buttons := concat groups in
  let st' := (process_swatches requests_get tile product_folder st).2 in
  (∀ k button,
     swatch_buttons !! k = Some button →
     files st' !! swatch_filename product_folder (S k)
     = match captured requests_get button with
       | Some content => Some (ImageFile content)
       | None => files st !! swatch_filename product_folder (S k)
       end)
  ∧ (∀ p,
       (∀ k, (k < length swatch_buttons)%nat →
             p ≠ swatch_filename product_folder (S k)) →
       files st' !! p = files st !! p)
  ∧ (∀ b1 b2 b3 c1 c3,
       swatch_buttons = [b1; b2; b3] →
       captured requests_get b1 = Some c1 →
       captured requests_get b2 = None →
       captured requests_get b3 = Some c3 →
       files st'
       = <[swatch_filename product_folder 3 := ImageFile c3]>
           (<[swatch_filename product_folder 1 := ImageFile c1]> (files st))).
Proof.
  intros Hlists Hgroups swatch_buttons st'.
  destruct (process_swatches_loop tile product_folder _ _ st Hlists Hgroups)
    as (st1 & Hfiles & Hrun).
  fold swatch_buttons in Hrun. fold st' in Hrun.
  assert (∀ k button,
     swatch_buttons !! k = Some button →
     files st' !! swatch_filename product_folder (S k)
     = match captured requests_get button with
       | Some content => Some (ImageFile content)
       | None => files st !! swatch_filename product_folder (S k)
       end) as Hnumbered.
  { intros k button Hk. rewrite Hrun, <- Hfiles.
    apply (swatch_loop_lookup product_folder swatch_buttons 1 st1 k button Hk). }
  assert (∀ p,
       (∀ k, (k < length swatch_buttons)%nat →
             p ≠ swatch_filename product_folder (S k)) →
       files st' !! p = files st !! p) as Hframe.
  { intros p Hp. rewrite Hrun, <- Hfiles.
    apply (swatch_loop_writes requests_get
             (λ p, ∃ k, (k < length swatch_buttons)%nat
                        ∧ p = swatch_filename product_folder (S k))).
    - intros k ?. exists (pred k). split; [lia|]. f_equal. lia.
    - intros (k & ? & ->). by apply (Hp k). }
  split; [done|split; [done|]].
  intros b1 b2 b3 c1 c3 Hthree Hc1 Hc2 Hc3. apply map_eq. intros p.
  rewrite Hthree in Hnumbered, Hframe.
  destruct (decide (p = swatch_filename product_folder 3)) as [->|Hp3].
  { rewrite (Hnumbered 2%nat b3 eq_refl), Hc3. by rewrite lookup_insert_eq. }
  rewrite lookup_insert_ne by done.
  destruct (decide (p = swatch_filename product_folder 1)) as [->|Hp1].
  { rewrite (Hnumbered 0%nat b1 eq_refl), Hc1. by rewrite lookup_insert_eq. }
  rewrite lookup_insert_ne by done.
  destruct (decide (p = swatch_filename product_folder 2)) as [->|Hp2].
  { by rewrite (Hnumbered 1%nat b2 eq_refl), Hc2. }
  apply Hframe. intros [|[|[|k]]] ?; cbn in *; [done..|lia].
Qed.

End SwatchLoop.

(** ** The console output of the steps *)

Lemma print_then_emits {A} (P : event → Prop) ev (m : M A) :
  keeps (emits P) m →
  ∀ st, ∃ l,
    output ((print ev;; m) st).2 = output st ++ ev :: l ∧ Forall P l.
Proof.
  intros Hm st. unfold mbind, M_bind, print.
  destruct (Hm {| files := files st; folders := folders st;
                  output := output st ++ [ev] |}) as (l & Hl & HP).
  exists l. split; [|done]. cbn [output] in Hl. by rewrite Hl, <- app_assoc.
Qed.



Section Output.
Variable requests_get : str → result Response.

Lemma resolve_name_emits tile index :
  keeps (emits step_event) (resolve_name tile index).
Proof. unfold resolve_name. repeat run_step; done. Qed.

Lemma extract_main_image_emits tile product_folder :
  keeps (emits step_event) (extract_main_image requests_get tile product_folder).
Proof.
  unfold extract_main_image.
  repeat first [by apply download_image_emits | run_step]; done.
Qed.

Lemma collect_buttons_emits swatch_lists swatch_buttons :
  keeps (emits step_event) (collect_buttons swatch_lists swatch_buttons).
Proof.
  revert swatch_buttons.
  induction swatch_lists as [|swatch_list rest IH]; intros swatch_buttons;
    cbn [collect_buttons]; repeat first [apply IH | run_step].
Qed.

Lemma process_swatch_emits product_folder swatch_index button :
  keeps (emits step_event)
    (process_swatch requests_get product_folder swatch_index button).
Proof.
  unfold process_swatch, activate, capture_swatch_image.
  repeat first [by apply download_image_emits | run_step]; done.
Qed.

Lemma swatch_loop_emits product_folder swatch_index swatch_buttons :
  keeps (emits step_event)
    (swatch_loop requests_get product_folder swatch_index swatch_buttons).
Proof.
  revert swatch_index.
  induction swatch_buttons as [|button rest IH]; intros swatch_index;
    cbn [swatch_loop];
    repeat first [apply IH | apply process_swatch_emits | run_step].
Qed.

Lemma process_swatches_emits tile product_folder :
  keeps (emits step_event) (process_swatches requests_get tile product_folder).
Proof.
  unfold process_swatches.
  repeat first [apply swatch_loop_emits | apply collect_buttons_emits
               | run_step]; done.
Qed.

Lemma extract_details_emits tile product_name product_folder :
  keeps (emits step_event) (extract_details tile product_name product_folder).
Proof. unfold extract_details. repeat run_step; done. Qed.

Lemma product_steps_emits index tile :
  keeps (emits step_event) (product_steps requests_get index tile).
Proof.
  unfold product_steps.
  repeat first [ apply resolve_name_emits | apply extract_main_image_emits
               | apply process_swatches_emits | apply extract_details_emits
               | run_step ]; done.
Qed.

Lemma process_product_no_raise index tile :
  no_raise (process_product requests_get index tile).
Proof.
  unfold process_product. run_step; [apply raises_only_print|].
  apply raises_only_try with (P' := λ _, True).
  - by intros st e.
  - intros e _. apply raises_only_print.
Qed.

Lemma process_product_output index tile st :
  ∃ l,
    output (process_product requests_get index tile st).2
    = output st ++ EvProcessing index :: l
    ∧ Forall step_event l.
Proof.
  apply print_then_emits.
  apply keeps_try; [apply _|apply product_steps_emits|].
  intros e h [= <-]. by apply keeps_print_emits.
Qed.

Lemma product_loop_cons index tile rest st :
  product_loop requests_get index (tile :: rest) st
  = product_loop requests_get (S index) rest
      (process_product requests_get index tile st).2.
Proof.
  cbn [product_loop]. unfold mbind, M_bind.
  by rewrite (no_raise_run _ st (process_product_no_raise _ _)).
Qed.



End Output.

(** ** The catalog loop *)

Section Catalog.
Variable requests_get : str → result Response.



End Catalog.

(** ** Fault isolation *)




(** ** Which steps are entered *)




Section Entered.
Variable requests_get : str → result Response.
















End Entered.

Section Isolation.
Variable requests_get : str → result Response.







End Isolation.

(** ** A name that sanitizes to nothing *)

Section EmptyName.
Variable requests_get : str → result Response.



End EmptyName.

(** ** Scenarios, run *)

(** The end-to-end example of the specification: the folder of the product
    holds the main image, the images of the first and third control and the
    record, which has no pricing section. *)
Example chair_run :
  let run := process_product shop 1 chair initial_state in
  run.1 = Ok tt
  ∧ files run.2
    = list_to_map
        [ (lit "scraped_products/Test Chair/main_image.jpg", ImageFile [x01]);
          (lit "scraped_products/Test Chair/swatch_1.jpg", ImageFile [x02]);
          (lit "scraped_products/Test Chair/swatch_3.jpg", ImageFile [x03]);
          (lit "scraped_products/Test Chair/product_details.csv",
           CsvFile [ [lit "Field"; lit "Value"];
                     [lit "Product Name"; lit "Test Chair"];
                     [lit "=== DETAILS ==="; []];
                     [lit "Material"; lit "Fabric"];
                     [lit "Weight"; lit "20 lbs"] ]) ]
  ∧ folders run.2
    = {[lit "scraped_products"; lit "scraped_products/Test Chair"]}.
Proof. vm_compute. done. Qed.



Lemma swatch_files_numbered_by_discovery_witness :
  files (process_swatches shop chair (lit "scraped_products/Test Chair")
           initial_state).2
  = <[lit "scraped_products/Test Chair/swatch_3.jpg" := ImageFile [x03]]>
      (<[lit "scraped_products/Test Chair/swatch_1.jpg" := ImageFile [x02]]> ∅).
Proof.
  destruct (swatch_files_numbered_by_discovery shop chair
              (lit "scraped_products/Test Chair") chair_swatch_lists
              [[control "http://shop/red.jpg"; blocked_control];
               [control "http://shop/blue.jpg"]]
              initial_state eq_refl)
    as (_ & _ & Hthree).
  { repeat constructor. }
  exact (Hthree _ _ _ [x02] [x03] eq_refl eq_refl eq_refl eq_refl).
Defined.




Lemma no_record_without_detail_witness :
  files (process_product shop 1 bare_chair initial_state).2
    !! lit "scraped_products/Test Chair/product_details.csv"
  = None.
Proof.
  exact (proj2 (no_record_without_detail shop 1 bare_chair [] []
                  initial_state eq_refl)
           (lit "scraped_products/Test Chair")).
Defined.

(** ** [sanitize_folder_name] *)

Lemma remove_invalid_valid name : Forall valid_char (remove_invalid name).
Proof.
  apply Forall_forall. intros c Hc.
  by apply list_elem_of_filter in Hc as [Hc _].
Qed.

Lemma remove_invalid_id name : Forall valid_char name → remove_invalid name = name.
Proof.
  induction 1 as [|c name Hc _ IH]; [done|].
  unfold remove_invalid in *. rewrite filter_cons, decide_True by done.
  by rewrite IH.
Qed.

Lemma sub_spaces_valid in_run name :
  Forall valid_char name → Forall valid_char (sub_spaces in_run name).
Proof.
  intros H. revert in_run. induction H as [|c name Hc _ IH]; intros in_run;
    cbn [sub_spaces]; [done|].
  destruct (isspace c); [destruct in_run|]; repeat constructor; auto.
Qed.

Lemma sub_spaces_collapsed in_run name :
  collapsed in_run (sub_spaces in_run name) = true.
Proof.
  revert in_run. induction name as [|c name IH]; intros in_run;
    cbn [sub_spaces]; [done|].
  destruct (isspace c) eqn:Hc.
  - destruct in_run; [apply IH|]. cbn [collapsed].
    change (isspace (ord " ")) with true. cbn. apply IH.
  - cbn [collapsed]. rewrite Hc. apply IH.
Qed.

Lemma collapsed_id in_run name :
  collapsed in_run name = true → sub_spaces in_run name = name.
Proof.
  revert in_run. induction name as [|c name IH]; intros in_run;
    cbn [sub_spaces collapsed]; [done|].
  destruct (isspace c).
  - rewrite !andb_true_iff, negb_true_iff. intros [[Hc ->] Hrest].
    apply N.eqb_eq in Hc as ->. by rewrite IH.
  - intros Hrest. by rewrite IH.
Qed.

Lemma collapsed_flag in_run name :
  collapsed in_run name = true → collapsed false name = true.
Proof.
  destruct name as [|c name]; cbn [collapsed]; [done|].
  destruct (isspace c); [|done].
  rewrite !andb_true_iff. intros [[-> _] ->]. done.
Qed.

Lemma lstrip_collapsed in_run name :
  collapsed in_run name = true → collapsed false (lstrip name) = true.
Proof.
  revert in_run. induction name as [|c name IH]; intros in_run Hname; [done|].
  cbn [lstrip]. destruct (isspace c) eqn:Hc.
  - cbn [collapsed] in Hname. rewrite Hc in Hname.
    apply andb_true_iff in Hname as [_ Hname]. by eapply IH.
  - by eapply collapsed_flag.
Qed.

Lemma rstrip_collapsed in_run name :
  collapsed in_run name = true → collapsed in_run (rstrip name) = true.
Proof.
  revert in_run. induction name as [|c name IH]; intros in_run; [done|].
  cbn [collapsed rstrip]. destruct (isspace c) eqn:Hc.
  - rewrite !andb_true_iff. intros [Hhead Hrest]. apply IH in Hrest.
    destruct (rstrip name); [done|].
    cbn [collapsed]. rewrite Hc. by rewrite !andb_true_iff.
  - intros Hrest. apply IH in Hrest.
    destruct (rstrip name); cbn [collapsed]; by rewrite Hc.
Qed.

Lemma take_collapsed n in_run name :
  collapsed in_run name = true → collapsed in_run (take n name) = true.
Proof.
  revert n in_run. induction name as [|c name IH]; intros [|n] in_run;
    cbn [take collapsed]; try done.
  destruct (isspace c).
  - rewrite !andb_true_iff. intros [Hhead Hrest]. split; [done|by apply IH].
  - apply IH.
Qed.

Lemma lstrip_valid name : Forall valid_char name → Forall valid_char (lstrip name).
Proof.
  induction 1 as [|c name Hc Hname IH]; [done|].
  cbn [lstrip]. destruct (isspace c); [done|by constructor].
Qed.

Lemma rstrip_valid name : Forall valid_char name → Forall valid_char (rstrip name).
Proof.
  induction 1 as [|c name Hc Hname IH]; [done|].
  cbn [rstrip]. destruct (rstrip name); [|by constructor].
  destruct (isspace c); by repeat constructor.
Qed.

Lemma lstrip_no_leading name : no_leading_space (lstrip name).
Proof.
  induction name as [|c name IH]; [done|].
  cbn [lstrip]. destruct (isspace c) eqn:Hc; [done|].
  by intros c' [= <-].
Qed.

Lemma rstrip_no_leading name :
  no_leading_space name → no_leading_space (rstrip name).
Proof.
  destruct name as [|c name]; [done|]. intros Hname c'.
  cbn [rstrip]. destruct (rstrip name).
  - destruct (isspace c) eqn:Hc; [done|]. by intros [= <-].
  - intros [= <-]. by apply Hname.
Qed.

Lemma rstrip_no_trailing name : no_trailing_space (rstrip name).
Proof.
  induction name as [|c name IH]; [done|].
  cbn [rstrip]. destruct (rstrip name) as [|d r] eqn:Hr.
  - destruct (isspace c) eqn:Hc; [done|]. by intros c' [= <-].
  - intros c'. rewrite last_cons_cons. apply IH.
Qed.

Lemma take_no_leading n name :
  no_leading_space name → no_leading_space (take n name).
Proof. destruct name, n; try done. Qed.

Lemma lstrip_id name : no_leading_space name → lstrip name = name.
Proof.
  destruct name as [|c name]; [done|]. intros Hname.
  cbn [lstrip]. by rewrite (Hname c).
Qed.

Lemma rstrip_id name : no_trailing_space name → rstrip name = name.
Proof.
  induction name as [|c name IH]; [done|]. intros Hname. cbn [rstrip].
  destruct name as [|d name].
  - cbn. by rewrite (Hname c).
  - rewrite IH; [done|]. intros c'. rewrite <- (last_cons_cons c). apply Hname.
Qed.

Lemma sanitize_folder_name_take name :
  sanitize_folder_name name
  = take 100 (strip (collapse_spaces (remove_invalid name))).
Proof.
  unfold sanitize_folder_name.
  destruct (Nat.ltb_spec 100 (length (strip (collapse_spaces (remove_invalid name)))));
    [done|]. by rewrite take_ge.
Qed.

(** The parts of C3 that hold. *)
Lemma sanitize_no_invalid_chars name :
  Forall (λ c, is_invalid c = false) (sanitize_folder_name name).
Proof.
  rewrite sanitize_folder_name_take. apply Forall_take.
  apply rstrip_valid, lstrip_valid, sub_spaces_valid, remove_invalid_valid.
Qed.

Lemma sanitize_length name : (length (sanitize_folder_name name) ≤ 100)%nat.
Proof. rewrite sanitize_folder_name_take, length_take. lia. Qed.

Lemma sanitize_no_leading_space name :
  no_leading_space (sanitize_folder_name name).
Proof.
  rewrite sanitize_folder_name_take.
  apply take_no_leading, rstrip_no_leading, lstrip_no_leading.
Qed.

Lemma sanitize_collapsed name :
  collapsed false (sanitize_folder_name name) = true.
Proof.
  rewrite sanitize_folder_name_take.
  apply take_collapsed, rstrip_collapsed, (lstrip_collapsed false),
    sub_spaces_collapsed.
Qed.

Lemma collapsed_no_doubled in_run name i c d :
  collapsed in_run name = true →
  name !! i = Some c → name !! S i = Some d →
  isspace c = true → isspace d = false.
Proof.
  revert in_run i. induction name as [|c' name IH]; intros in_run i Hname;
    [done|].
  cbn [collapsed] in Hname. destruct i as [|i]; cbn.
  - intros [= ->] Hd Hc. rewrite Hc in Hname.
    apply andb_true_iff in Hname as [_ Hname].
    destruct name as [|d' name]; simplify_eq/=.
    destruct (isspace d); [|done]. by rewrite andb_false_r in Hname.
  - intros Hc Hd. destruct (isspace c').
    + apply andb_true_iff in Hname as [_ Hname]. by eapply IH.
    + by eapply IH.
Qed.

Lemma sanitize_no_doubled_space name i c d :
  sanitize_folder_name name !! i = Some c →
  sanitize_folder_name name !! S i = Some d →
  isspace c = true → isspace d = false.
Proof. apply collapsed_no_doubled with (in_run := false), sanitize_collapsed. Qed.

Lemma sanitize_no_trailing_space_uncut name :
  (length (strip (collapse_spaces (remove_invalid name))) ≤ 100)%nat →
  no_trailing_space (sanitize_folder_name name).
Proof.
  intros Hlen. rewrite sanitize_folder_name_take, take_ge by done.
  apply rstrip_no_trailing.
Qed.

(** C4 where it holds: a result that does not end in a space is a fixed
    point. *)
Lemma sanitize_idempotent_unless_cut_on_space name :
  no_trailing_space (sanitize_folder_name name) →
  sanitize_folder_name (sanitize_folder_name name) = sanitize_folder_name name.
Proof.
  intros Htrail.
  rewrite (sanitize_folder_name_take (sanitize_folder_name name)).
  rewrite remove_invalid_id by apply sanitize_no_invalid_chars.
  unfold collapse_spaces, strip.
  rewrite collapsed_id by apply sanitize_collapsed.
  rewrite lstrip_id by apply sanitize_no_leading_space.
  rewrite rstrip_id by done.
  apply take_ge, sanitize_length.
Qed.

(** C3 fails on the code: the name is cut to 100 characters after it was
    trimmed, and the cut can end on a space. *)
Theorem sanitize_trailing_space_after_truncation :
  sanitize_folder_name long_name = replicate 99 (ord "a") ++ lit " "
  ∧ length (sanitize_folder_name long_name) = 100%nat
  ∧ last (sanitize_folder_name long_name) = Some (ord " ")
  ∧ isspace (ord " ") = true.
Proof. by vm_compute. Qed.

(** C4 fails on the code: a second pass trims the space the first pass left
    at the cut. *)
Theorem sanitize_not_idempotent_after_truncation :
  sanitize_folder_name (sanitize_folder_name long_name)
  = replicate 99 (ord "a")
  ∧ sanitize_folder_name (sanitize_folder_name long_name)
    ≠ sanitize_folder_name long_name.
Proof. by vm_compute. Qed.

(** * More properties of the code *)

(** ** More on [sanitize_folder_name] *)

Lemma is_invalid_spec c : is_invalid c = false ↔ c ∉ invalid_chars.
Proof.
  unfold is_invalid. rewrite <- not_true_iff_false, existsb_exists.
  split.
  - intros Hno Hc. apply Hno. exists c. split; [by apply list_elem_of_In|].
    apply N.eqb_refl.
  - intros Hc (x & Hx & Heq). apply N.eqb_eq in Heq as <-.
    by apply Hc, list_elem_of_In.
Qed.

(** X1: the result holds none of the removed characters. *)
Theorem sanitize_drops_invalid_chars name :
  Forall (λ c, c ∉ invalid_chars) (sanitize_folder_name name).
Proof.
  eapply Forall_impl; [apply sanitize_no_invalid_chars|].
  intros c. apply is_invalid_spec.
Qed.

(** X2: the result has at most 100 characters and is a prefix of the name as
    the two substitutions and the trimming leave it: the cut looks at the
    length only. *)
Theorem sanitize_at_most_100 name :
  (length (sanitize_folder_name name) ≤ 100)%nat
  ∧ sanitize_folder_name name
    `prefix_of` strip (collapse_spaces (remove_invalid name)).
Proof.
  split; [apply sanitize_length|].
  rewrite sanitize_folder_name_take. apply prefix_take.
Qed.

Lemma collapsed_spaces in_run name :
  collapsed in_run name = true →
  Forall (λ c, isspace c = true → c = ord " ") name.
Proof.
  revert in_run. induction name as [|c name IH]; intros in_run; [done|].
  cbn [collapsed]. destruct (isspace c) eqn:Hc.
  - rewrite !andb_true_iff. intros [[Heq _] Hrest].
    apply N.eqb_eq in Heq. constructor; [done|by eapply IH].
  - intros Hrest. constructor; [by rewrite Hc|by eapply IH].
Qed.

(** X3: whitespace in the result is normalised: every whitespace character
    is a plain space, the result does not start with one and no two follow
    each other. *)
Theorem sanitize_normalises_whitespace name :
  let out := sanitize_folder_name name in
  Forall (λ c, isspace c = true → c = ord " ") out
  ∧ (∀ c, head out = Some c → isspace c = false)
  ∧ (∀ i c d,
       out !! i = Some c → out !! S i = Some d →
       isspace c = true → isspace d = false).
Proof.
  intros out. split; [|split].
  - eapply collapsed_spaces, sanitize_collapsed.
  - apply sanitize_no_leading_space.
  - apply sanitize_no_doubled_space.
Qed.

Lemma sanitize_normalises_whitespace_witness :
  sanitize_folder_name (lit "  a  b") !! 1%nat = Some (ord " ")
  ∧ isspace (ord "b") = false.
Proof.
  destruct (sanitize_normalises_whitespace (lit "  a  b")) as (_ & _ & Hpair).
  split; [reflexivity|].
  exact (Hpair 1%nat (ord " ") (ord "b") eq_refl eq_refl eq_refl).
Defined.

(** X4: a name short enough to need no cut comes out without trailing
    whitespace. *)
Theorem sanitize_trims_uncut_names name :
  (length (strip (collapse_spaces (remove_invalid name))) ≤ 100)%nat →
  ∀ c, last (sanitize_folder_name name) = Some c → isspace c = false.
Proof. apply sanitize_no_trailing_space_uncut. Qed.

Lemma sanitize_trims_uncut_names_witness :
  last (sanitize_folder_name (lit "  Test   Chair  ")) = Some (ord "r")
  ∧ isspace (ord "r") = false.
Proof.
  split; [reflexivity|].
  apply (sanitize_trims_uncut_names (lit "  Test   Chair  ")).
  - vm_compute. lia.
  - reflexivity.
Defined.

Lemma sanitize_clean_id name :
  Forall valid_char name →
  collapsed false name = true →
  no_leading_space name →
  no_trailing_space name →
  (length name ≤ 100)%nat →
  sanitize_folder_name name = name.
Proof.
  intros Hvalid Hcollapsed Hlead Htrail Hlen.
  rewrite sanitize_folder_name_take.
  rewrite remove_invalid_id by done.
  unfold collapse_spaces, strip.
  rewrite collapsed_id by done.
  rewrite lstrip_id by done. rewrite rstrip_id by done.
  by apply take_ge.
Qed.

Lemma collapsed_of_pairs name :
  Forall (λ c, isspace c = true → c = ord " ") name →
  (∀ i c d, name !! i = Some c → name !! S i = Some d →
            isspace c = true → isspace d = false) →
  ∀ in_run,
    (in_run = true → ∀ c, head name = Some c → isspace c = false) →
    collapsed in_run name = true.
Proof.
  induction 1 as [|c name Hc _ IH]; intros Hpairs in_run Hhead; [done|].
  cbn [collapsed]. destruct (isspace c) eqn:Hsp.
  - rewrite (Hc eq_refl), N.eqb_refl.
    destruct in_run; [by rewrite (Hhead eq_refl c eq_refl) in Hsp|].
    apply IH.
    + intros i c' d. apply (Hpairs (S i)).
    + intros _ d Hd. destruct name as [|d' name]; simplify_eq/=.
      by apply (Hpairs 0%nat c d).
  - apply IH; [|done]. intros i c' d. apply (Hpairs (S i)).
Qed.

(** X5: a name that is clean already, with no removed character, only single
    plain spaces inside, none at either end and at most 100 characters, is
    returned as it is. *)
Theorem sanitize_keeps_clean_names name :
  Forall (λ c, c ∉ invalid_chars) name →
  Forall (λ c, isspace c = true → c = ord " ") name →
  (∀ i c d, name !! i = Some c → name !! S i = Some d →
            isspace c = true → isspace d = false) →
  (∀ c, head name = Some c → isspace c = false) →
  (∀ c, last name = Some c → isspace c = false) →
  (length name ≤ 100)%nat →
  sanitize_folder_name name = name.
Proof.
  intros Hvalid Hspaces Hpairs Hlead Htrail Hlen.
  apply sanitize_clean_id; try done.
  - eapply Forall_impl; [exact Hvalid|]. intros c. apply is_invalid_spec.
  - by apply collapsed_of_pairs.
Qed.

Lemma sanitize_keeps_clean_names_witness :
  sanitize_folder_name (lit "Test Chair") = lit "Test Chair".
Proof.
  apply sanitize_keeps_clean_names.
  - apply Forall_forall. intros c Hc Hin.
    vm_compute in Hc, Hin.
    repeat (apply elem_of_cons in Hin as [->|Hin];
            [by repeat (apply elem_of_cons in Hc as [[=]|Hc];
                        try by apply elem_of_nil in Hc)|]).
    by apply elem_of_nil in Hin.
  - apply Forall_forall. intros c Hc.
    vm_compute in Hc.
    repeat (apply elem_of_cons in Hc as [->|Hc]; [by vm_compute|]).
    by apply elem_of_nil in Hc.
  - intros i c d Hc Hd.
    do 10 (destruct i as [|i]; [vm_compute in Hc, Hd; by simplify_eq|]).
    by vm_compute in Hd.
  - intros c [= <-]. reflexivity.
  - intros c [= <-]. reflexivity.
  - vm_compute. lia.
Defined.

(** X6: a result that does not end in whitespace is a fixed point: a second
    pass returns it unchanged. *)
Theorem sanitize_idempotent_on_trimmed_results name :
  (∀ c, last (sanitize_folder_name name) = Some c → isspace c = false) →
  sanitize_folder_name (sanitize_folder_name name) = sanitize_folder_name name.
Proof. apply sanitize_idempotent_unless_cut_on_space. Qed.

Lemma sanitize_idempotent_on_trimmed_results_witness :
  sanitize_folder_name (sanitize_folder_name (lit " A:  b/c "))
  = sanitize_folder_name (lit " A:  b/c ").
Proof.
  apply sanitize_idempotent_on_trimmed_results.
  intros c [= <-]. reflexivity.
Defined.

Lemma lstrip_elem c name :
  c ∈ name → isspace c = false → c ∈ lstrip name.
Proof.
  intros Hin Hc. induction name as [|d name IH]; [done|].
  cbn [lstrip]. destruct (isspace d) eqn:Hd; [|done].
  apply elem_of_cons in Hin as [->|Hin]; [congruence|by apply IH].
Qed.

Lemma rstrip_elem c name :
  c ∈ name → isspace c = false → c ∈ rstrip name.
Proof.
  intros Hin Hc. induction name as [|d name IH]; [done|].
  cbn [rstrip]. apply elem_of_cons in Hin as [->|Hin].
  - destruct (rstrip name); [rewrite Hc|]; apply elem_of_cons; by left.
  - specialize (IH Hin). destruct (rstrip name) as [|e r]; [by apply elem_of_nil in IH|].
    apply elem_of_cons. by right.
Qed.

Lemma sub_spaces_elem c in_run name :
  c ∈ name → isspace c = false → c ∈ sub_spaces in_run name.
Proof.
  intros Hin Hc. revert in_run. induction name as [|d name IH]; intros in_run;
    [done|].
  cbn [sub_spaces]. apply elem_of_cons in Hin as [->|Hin].
  - rewrite Hc. apply elem_of_cons. by left.
  - destruct (isspace d); [destruct in_run|]; try apply elem_of_cons; auto.
Qed.

Lemma lstrip_spaces name :
  Forall (λ c, isspace c = true) name → lstrip name = [].
Proof. induction 1 as [|c name Hc _ IH]; [done|]. cbn [lstrip]. by rewrite Hc. Qed.

Lemma sub_spaces_spaces in_run name :
  Forall (λ c, isspace c = true) name →
  Forall (λ c, isspace c = true) (sub_spaces in_run name).
Proof.
  intros H. revert in_run. induction H as [|c name Hc _ IH]; intros in_run;
    [done|].
  cbn [sub_spaces]. rewrite Hc. destruct in_run; [done|]. by constructor.
Qed.

(** X7: the result is empty exactly for the names made of whitespace and
    removed characters only. *)
Theorem sanitize_empty_iff name :
  sanitize_folder_name name = []
  ↔ Forall (λ c, dropped_char c = true) name.
Proof.
  rewrite sanitize_folder_name_take. split.
  - intros Hempty. apply Forall_forall. intros c Hin.
    unfold dropped_char.
    destruct (isspace c) eqn:Hsp; [done|].
    destruct (is_invalid c) eqn:Hinv; [done|]. exfalso.
    assert (c ∈ strip (collapse_spaces (remove_invalid name))) as Hc.
    { apply rstrip_elem; [|done]. apply lstrip_elem; [|done].
      apply sub_spaces_elem; [|done]. by apply list_elem_of_filter. }
    destruct (strip (collapse_spaces (remove_invalid name))); [|done].
    by apply elem_of_nil in Hc.
  - intros Hall. unfold strip. rewrite lstrip_spaces; [done|].
    apply sub_spaces_spaces, Forall_forall. intros c Hc.
    apply list_elem_of_filter in Hc as [Hvalid Hin].
    rewrite Forall_forall in Hall. specialize (Hall c Hin).
    unfold dropped_char in Hall. rewrite Hvalid in Hall.
    by rewrite orb_false_r in Hall.
Qed.

Lemma sanitize_empty_iff_witness :
  sanitize_folder_name (lit " <?> ") = [].
Proof.
  apply sanitize_empty_iff. by repeat constructor.
Defined.

(** ** More on the rows of a record *)

Lemma split1_first c a b :
  contains c a = false → split1 c (a ++ c :: b) = [a; b].
Proof.
  induction a as [|x a IH]; cbn [app split1 contains existsb].
  - by rewrite N.eqb_refl.
  - rewrite orb_false_iff. intros [Hx Ha]. rewrite N.eqb_sym in Hx.
    rewrite Hx. by rewrite (IH Ha).
Qed.

Lemma contains_cut c a b : contains c (a ++ c :: b) = true.
Proof.
  unfold contains. rewrite existsb_app. cbn [existsb].
  by rewrite N.eqb_refl, orb_true_r.
Qed.

(** X8: a line with a colon is cut at its first colon only: the trimmed text
    before it is the label and the trimmed rest, later colons included, is
    the value; the row stands after the rows of the non-blank lines
    before. *)
Theorem colon_line_is_cut_at_first_colon prefix block i line label value :
  let lines := split newline (strip block) in
  lines !! i = Some line →
  strip line = label ++ colon :: value →
  contains colon label = false →
  parse_block prefix block
    !! length (filter (λ l, nonblank l = true) (take i lines))
  = Some [strip label; strip value].
Proof.
  intros lines Hi Hline Hlabel. unfold parse_block. fold lines.
  replace (write_lines prefix 1 lines [])
    with (write_lines prefix 1 (take i lines ++ line :: drop (S i) lines) [])
    by (by rewrite take_drop_middle).
  rewrite write_lines_app. cbn [write_lines].
  rewrite Hline, contains_cut, split1_first by done.
  assert (truthy (label ++ colon :: value) = true) as ->
    by (by destruct label).
  rewrite (write_lines_acc _ _ (drop (S i) lines)). unfold writerow.
  rewrite <- (write_lines_length prefix 1).
  rewrite lookup_app_r by done. rewrite Nat.sub_diag. reflexivity.
Qed.

Lemma colon_line_is_cut_at_first_colon_witness :
  parse_block (lit "Detail")
    (lit "Color: Red" ++ [newline] ++ lit "  Opens : 10:30 ") !! 1%nat
  = Some [lit "Opens"; lit "10:30"].
Proof.
  apply (colon_line_is_cut_at_first_colon (lit "Detail")
           (lit "Color: Red" ++ [newline] ++ lit "  Opens : 10:30 ") 1
           (lit "  Opens : 10:30") (lit "Opens ") (lit " 10:30"));
    reflexivity.
Defined.

(** X9: a block gives one row per non-blank line, and a block of whitespace
    only, the empty block included, gives no row. *)
Theorem parse_block_has_a_row_per_nonblank_line prefix block :
  length (parse_block prefix block)
  = length (filter (λ l, nonblank l = true) (split newline (strip block)))
  ∧ (Forall (λ c, isspace c = true) block → parse_block prefix block = []).
Proof.
  split; [apply write_lines_length|].
  intros Hblank. unfold parse_block, strip.
  induction Hblank as [|c block Hc _ IH]; [done|].
  cbn [lstrip]. by rewrite Hc.
Qed.

Lemma parse_block_has_a_row_per_nonblank_line_witness :
  parse_block (lit "Price") (lit "   " ++ [newline] ++ lit "  " ++ [newline])
  = [].
Proof.
  apply parse_block_has_a_row_per_nonblank_line. by repeat constructor.
Defined.

Lemma write_lines_two_fields prefix lines :
  ∀ i rows,
    Forall (λ r : row, length r = 2%nat) rows →
    Forall (λ r : row, length r = 2%nat) (write_lines prefix i lines rows).
Proof.
  induction lines as [|line rest IH]; intros i rows Hrows; [done|].
  cbn [write_lines]. apply IH. unfold writerow.
  destruct (truthy (strip line)); [|done].
  destruct (contains colon (strip line));
    apply Forall_app; split; try done; by repeat constructor.
Qed.

(** X10: every row written to a record has exactly two fields. *)
Theorem record_rows_have_two_fields product_name pricing_lines detail_lines :
  Forall (λ r : row, length r = 2%nat)
    (write_record product_name pricing_lines detail_lines).
Proof.
  unfold write_record, writerow. cbn [app].
  apply write_lines_two_fields. apply Forall_app. split; [|by repeat constructor].
  destruct pricing_lines; [by repeat constructor|].
  apply write_lines_two_fields. by repeat constructor.
Qed.

(** ** More on the catalog loop *)

Lemma emits_weaken (P Q : event → Prop) st st' :
  (∀ ev, P ev → Q ev) → emits P st st' → emits Q st st'.
Proof.
  intros HPQ (l & Hl & HP). exists l. split; [done|].
  eapply Forall_impl; eauto.
Qed.

Section CatalogMore.
Variable requests_get : str → result Response.


Lemma process_product_emits_any index tile :
  keeps (emits (λ _, True)) (process_product requests_get index tile).
Proof.
  intros st.
  destruct (process_product_output requests_get index tile st) as (l & Hl & _).
  exists (EvProcessing index :: l). split; [done|].
  apply Forall_forall. done.
Qed.

Lemma product_loop_emits_any index tiles :
  keeps (emits (λ _, True)) (product_loop requests_get index tiles).
Proof.
  revert index. induction tiles as [|tile rest IH]; intros index;
    cbn [product_loop]; [by run_step|].
  apply keeps_bind; [apply _|apply process_product_emits_any|intros _; apply IH].
Qed.

Lemma main_body_no_raise limit page :
  no_raise (main requests_get limit page).
Proof.
  unfold main. apply raises_only_bind.
  - apply raises_only_try with (P' := λ _, True); [by intros st e|].
    intros e _. destruct e; apply raises_only_print.
  - intros _. repeat run_step.
Qed.

(** X12: [main] never raises, whatever the page and the network do, and the
    two closing lines around [driver.quit()] are the last it prints. *)
Theorem main_always_closes limit page st :
  let run := main requests_get limit page st in
  run.1 = Ok tt
  ∧ ∃ l, output run.2 = output st ++ l ++ [EvClosing; EvClosed].
Proof.
  intros run; subst run. split.
  { by rewrite (no_raise_run _ st (main_body_no_raise _ _)). }
  unfold main.
  match goal with
  | |- context [try_except ?body ?handler] =>
      set (loading := try_except body handler)
  end.
  assert (keeps (emits (λ _, True)) loading) as Hemits.
  { subst loading. apply keeps_try; [apply _| |].
    - repeat first [ apply product_loop_emits_any | run_step ]; done.
    - intros e h Hh. destruct e; simplify_eq; by apply keeps_print_emits. }
  assert (no_raise loading) as Hno.
  { apply raises_only_try with (P' := λ _, True); [by intros ? ?|].
    intros e _. destruct e; apply raises_only_print. }
  destruct (Hemits st) as (l & Hl & _). exists l.
  unfold mbind, M_bind, print. specialize (Hno st).
  destruct (loading st) as [[[]|e] st1]; cbn [fst snd output] in *.
  - rewrite Hl. by rewrite <- !app_assoc.
  - by destruct (Hno e).
Qed.

(** X13: when the page shows no tile, or fails to load, no product is
    processed, no file and no folder is created, and the failure is
    reported before the browser is closed. *)
Theorem main_without_tiles_changes_nothing limit page st :
  let run := main requests_get limit page st in
  (driver_get page = Ok tt → product_tiles page = [] →
   files run.2 = files st ∧ folders run.2 = folders st
   ∧ output run.2
     = output st ++ [EvNavigating; EvSearching; EvTimeout; EvClosing; EvClosed])
  ∧ (∀ e, driver_get page = Raise e →
     files run.2 = files st ∧ folders run.2 = folders st
     ∧ output run.2
       = output st
         ++ [EvNavigating;
             match e with TimeoutException => EvTimeout | _ => EvError e end;
             EvClosing; EvClosed]).
Proof.
  intros run; subst run. unfold main, wait_product_tiles.
  unfold mbind, M_bind, mret, M_ret, call, print, try_except. split.
  - intros -> ->. cbn [fst snd files folders output].
    by rewrite <- !app_assoc.
  - intros e ->. destruct e; cbn [fst snd files folders output];
      by rewrite <- !app_assoc.
Qed.

(** X14: a tile that cannot be scrolled into view is given up at once: the
    error is reported, and no folder and no file is created for it. *)
Theorem process_product_scroll_failure index tile e st :
  scroll_tile tile = Raise e →
  let run := process_product requests_get index tile st in
  run.1 = Ok tt
  ∧ files run.2 = files st
  ∧ folders run.2 = folders st
  ∧ output run.2 = output st ++ [EvProcessing index; EvProductError index e].
Proof.
  intros Hscroll run; subst run. unfold process_product, product_steps.
  unfold mbind, M_bind, mret, M_ret, call, print, try_except.
  rewrite Hscroll. cbn [fst snd files folders output].
  by rewrite <- !app_assoc.
Qed.

End CatalogMore.


Lemma main_without_tiles_changes_nothing_witness :
  files (main shop 224 empty_page initial_state).2 = ∅
  ∧ output (main shop 224 empty_page initial_state).2
    = [EvNavigating; EvSearching; EvTimeout; EvClosing; EvClosed].
Proof.
  destruct (main_without_tiles_changes_nothing shop 224 empty_page initial_state)
    as [Hempty _].
  destruct (Hempty eq_refl eq_refl) as (Hfiles & _ & Houtput).
  split; [exact Hfiles|exact Houtput].
Defined.

Lemma process_product_scroll_failure_witness :
  folders (process_product shop 1 hidden_chair initial_state).2
  = {[lit "scraped_products"]}
  ∧ output (process_product shop 1 hidden_chair initial_state).2
    = [EvProcessing 1; EvProductError 1 StaleElementReferenceException].
Proof.
  destruct (process_product_scroll_failure shop 1 hidden_chair
              StaleElementReferenceException initial_state eq_refl)
    as (_ & _ & Hfolders & Houtput).
  split; [exact Hfolders|exact Houtput].
Defined.

(** ** Names without whitespace *)

Lemma lit_cons a s : lit (String a s) = N_of_ascii a :: lit s.
Proof. done. Qed.

Lemma pretty_N_char_digit x : is_digit (N_of_ascii (pretty_N_char x)) = true.
Proof. unfold pretty_N_char. by repeat case_match. Qed.

Lemma pretty_N_go_digits x :
  ∀ s, Forall (λ c, is_digit c = true) (lit s) →
       Forall (λ c, is_digit c = true) (lit (pretty_N_go x s)).
Proof.
  induction (N.lt_wf_0 x) as [x _ IH]; intros s Hs.
  assert (x = 0 ∨ 0 < x) as [->|Hx] by lia.
  - by rewrite pretty_N_go_0.
  - rewrite pretty_N_go_step by done. apply IH.
    + by apply N.div_lt.
    + rewrite lit_cons. constructor; [apply pretty_N_char_digit|done].
Qed.

Lemma str_of_nat_digits i : Forall (λ c, is_digit c = true) (str_of_nat i).
Proof.
  unfold str_of_nat, pretty, pretty_nat, pretty, pretty_N.
  case_decide; [by repeat constructor|].
  by apply pretty_N_go_digits.
Qed.

Lemma digit_is_kept c : is_digit c = true → dropped_char c = false.
Proof.
  unfold is_digit. rewrite andb_true_iff, !N.leb_le. intros [Hlo Hhi].
  change (ord "0") with 48 in Hlo. change (ord "9") with 57 in Hhi.
  assert (c = 48 ∨ c = 49 ∨ c = 50 ∨ c = 51 ∨ c = 52 ∨ c = 53 ∨ c = 54
          ∨ c = 55 ∨ c = 56 ∨ c = 57) as Hc by lia.
  repeat (destruct Hc as [->|Hc]; [done|]). by subst.
Qed.

Lemma sub_spaces_no_space in_run name :
  Forall (λ c, isspace c = false) name → sub_spaces in_run name = name.
Proof.
  intros H. revert in_run. induction H as [|c name Hc _ IH]; intros in_run;
    [done|].
  cbn [sub_spaces]. by rewrite Hc, IH.
Qed.

Lemma rstrip_no_space name :
  Forall (λ c, isspace c = false) name → rstrip name = name.
Proof.
  induction 1 as [|c name Hc _ IH]; [done|].
  cbn [rstrip]. rewrite IH. destruct name; [by rewrite Hc|done].
Qed.

Lemma sanitize_without_dropped_chars name :
  Forall (λ c, dropped_char c = false) name →
  sanitize_folder_name name = take 100 name.
Proof.
  intros Hname.
  assert (Forall (λ c, isspace c = false) name) as Hspace.
  { eapply Forall_impl; [exact Hname|]. intros c.
    unfold dropped_char. by intros [? ?]%orb_false_iff. }
  assert (Forall valid_char name) as Hvalid.
  { eapply Forall_impl; [exact Hname|]. intros c.
    unfold dropped_char, valid_char. by intros [? ?]%orb_false_iff. }
  rewrite sanitize_folder_name_take, remove_invalid_id by done.
  unfold collapse_spaces, strip. rewrite sub_spaces_no_space by done.
  rewrite lstrip_id, rstrip_no_space; [done..|].
  intros c Hc. apply head_Some_elem_of in Hc.
  by rewrite Forall_forall in Hspace; apply Hspace.
Qed.

Lemma default_name_kept index :
  Forall (λ c, dropped_char c = false) (default_name index).
Proof.
  apply Forall_app. split; [by repeat constructor|].
  eapply Forall_impl; [apply str_of_nat_digits|]. apply digit_is_kept.
Qed.

(** ** The name and the folder of a product *)

Lemma path_join_root name :
  startswith sep name = false →
  path_join (lit "scraped_products") name = lit "scraped_products/" ++ name.
Proof. intros Hname. by rewrite path_join_relative. Qed.


(** X15: without a name element, and with a name of whitespace only, the
    product is called [Product_<index>].  Its folder is that name under the
    output directory, passed through [sanitize_folder_name] (which can only
    cut it) in the second case and as it is in the first.  Different
    indices give different default names. *)
Theorem resolve_name_default index tile st :
  let run := resolve_name tile index st in
  (find_product_name tile = Raise NoSuchElementException →
   run.1 = Ok (default_name index,
               lit "scraped_products/" ++ default_name index))
  ∧ (∀ raw,
       find_product_name tile = Ok raw →
       Forall (λ c, isspace c = true) raw →
       run.1 = Ok (default_name index,
                   lit "scraped_products/" ++ take 100 (default_name index)))
  ∧ (∀ other, default_name index = default_name other → index = other).
Proof.
  intros run; subst run. unfold resolve_name.
  unfold mbind, M_bind, mret, M_ret, call, print, makedirs, try_except.
  split; [|split].
  - intros ->. cbn [fst snd]. by rewrite path_join_root.
  - intros raw -> Hraw. unfold strip. rewrite lstrip_spaces by done.
    cbn [rstrip truthy negb fst snd]. fold (default_name index).
    rewrite sanitize_without_dropped_chars by apply default_name_kept.
    by rewrite path_join_root.
  - intros other Heq. apply (inj (app _)) in Heq. by apply str_of_nat_inj.
Qed.

Lemma resolve_name_default_witness :
  (resolve_name anonymous_chair 7 initial_state).1
  = Ok (lit "Product_7", lit "scraped_products/Product_7").
Proof.
  destruct (resolve_name_default 7 anonymous_chair initial_state)
    as (Hmissing & _ & _).
  exact (Hmissing eq_refl).
Defined.

(** ** Step 1: the main image *)

Section MainImage.
Variable requests_get : str → result Response.


(** X17: the image source is [src] when that is non-empty, [data-src]
    otherwise; with neither nothing is downloaded. *)
Theorem main_image_source_preference tile product_folder img_wrapper
    img_element st :
  find_img_wrapper tile = Ok img_wrapper →
  find_img img_wrapper = Ok img_element →
  let main_image_filename := path_join product_folder (lit "main_image.jpg") in
  let after := files (extract_main_image requests_get tile product_folder st).2 in
  (∀ c url,
     src img_element = Some (c :: url) →
     after = save_image main_image_filename
               (fetched requests_get (c :: url)) (files st))
  ∧ (∀ c url,
       src img_element = None ∨ src img_element = Some [] →
       data_src img_element = Some (c :: url) →
       after = save_image main_image_filename
                 (fetched requests_get (c :: url)) (files st))
  ∧ (src img_element = None ∨ src img_element = Some [] →
     data_src img_element = None ∨ data_src img_element = Some [] →
     after = files st).
Proof.
  intros Hwrapper Himg main_image_filename after; subst after.
  rewrite extract_main_image_saves. unfold image_url, py_or.
  rewrite Hwrapper, Himg. split; [|split].
  - by intros c url ->.
  - by intros c url [-> | ->] ->.
  - by intros [-> | ->] [-> | ->].
Qed.

End MainImage.

Lemma main_image_source_preference_witness :
  files (extract_main_image shop lazy_chair (lit "scraped_products/Test Chair")
           initial_state).2
  = {[lit "scraped_products/Test Chair/main_image.jpg" := ImageFile [x01]]}.
Proof.
  destruct (main_image_source_preference shop lazy_chair
              (lit "scraped_products/Test Chair") lazy_wrapper lazy_image
              initial_state eq_refl eq_refl) as (_ & Hdeferred & _).
  exact (Hdeferred _ _ (or_intror eq_refl) eq_refl).
Defined.

(** ** One control *)

Section OneControl.
Variable requests_get : str → result Response.

Lemma process_swatch_run product_folder swatch_index button st :
  process_swatch requests_get product_folder swatch_index button st
  = match scroll_button button with
    | Ok _ =>
        let st1 := with_output st [EvClickingSwatch swatch_index] in
        match
          match click button with
          | Raise ElementClickInterceptedException => script_click button
          | r => r
          end
        with
        | Ok _ =>
            match capture_swatch_image requests_get product_folder
                    swatch_index button st1 with
            | (Ok a, st2) => (Ok a, st2)
            | (Raise e, st2) => (Ok tt, with_output st2 [EvSwatchError swatch_index e])
            end
        | Raise e => (Ok tt, with_output st1 [EvSwatchError swatch_index e])
        end
    | Raise e => (Ok tt, with_output st [EvSwatchError swatch_index e])
    end.
Proof.
  unfold process_swatch.
  unfold mbind, M_bind, mret, M_ret, call, print, try_except.
  destruct (scroll_button button) as [[]|e]; [|done].
  rewrite activate_run. fold (with_output st [EvClickingSwatch swatch_index]).
  cbv zeta.
  by destruct (click button) as [[]|[]]; try done;
    destruct (script_click button) as [[]|e'].
Qed.

(** X18: a control whose click is intercepted is activated by the scripted
    click, with the same outcome as a control whose click went through;
    when the scripted click fails too, its exception is reported for the
    control and no file changes. *)
Theorem intercepted_click_falls_back_to_script product_folder swatch_index
    button st :
  scroll_button button = Ok tt →
  click button = Raise ElementClickInterceptedException →
  let run := process_swatch requests_get product_folder swatch_index button st in
  (script_click button = Ok tt →
   ∀ clicked,
     scroll_button clicked = Ok tt →
     click clicked = Ok tt →
     img_wrapper_after clicked = img_wrapper_after button →
     run = process_swatch requests_get product_folder swatch_index clicked st)
  ∧ (∀ e,
       script_click button = Raise e →
       run.1 = Ok tt
       ∧ files run.2 = files st
       ∧ output run.2
         = output st ++ [EvClickingSwatch swatch_index;
                         EvSwatchError swatch_index e]).
Proof.
  intros Hscroll Hclick run; subst run. rewrite process_swatch_run.
  rewrite Hscroll, Hclick. split.
  - intros Hscript clicked Hscroll' Hclick' Himg.
    rewrite process_swatch_run, Hscroll', Hclick', Hscript.
    unfold capture_swatch_image. by rewrite Himg.
  - intros e ->. cbn [fst snd files output with_output].
    by rewrite <- app_assoc.
Qed.

End OneControl.

Lemma intercepted_click_falls_back_to_script_witness :
  process_swatch shop (lit "scraped_products/Test Chair") 1 covered_control
    initial_state
  = process_swatch shop (lit "scraped_products/Test Chair") 1
      (control "http://shop/red.jpg") initial_state.
Proof.
  destruct (intercepted_click_falls_back_to_script shop
              (lit "scraped_products/Test Chair") 1 covered_control
              initial_state eq_refl eq_refl) as [Hscript _].
  exact (Hscript eq_refl (control "http://shop/red.jpg") eq_refl eq_refl eq_refl).
Defined.

(** ** The record of a product with a name and details *)

Section Persisted.
Variable requests_get : str → result Response.



End Persisted.


(** ** Runs that do not look at the state *)

Lemma apply_no_effect st : apply_effect no_effect st = st.
Proof. destruct st. unfold apply_effect; cbn. by rewrite app_nil_r. Qed.

Lemma apply_then_effect e1 e2 st :
  apply_effect e2 (apply_effect e1 st) = apply_effect (then_effect e1 e2) st.
Proof.
  unfold apply_effect, then_effect, write_all, create_all; cbn.
  by rewrite !foldl_app, app_assoc.
Qed.

Section Blind.
Context {A B : Type}.

Lemma blind_ret (a : A) : blind (mret a).
Proof. exists (Ok a), no_effect. intros st. by rewrite apply_no_effect. Qed.

Lemma blind_call (r : result A) : blind (call r).
Proof. exists r, no_effect. intros st. by rewrite apply_no_effect. Qed.

Lemma blind_bind (m : M A) (f : A → M B) :
  blind m → (∀ a, blind (f a)) → blind (m ≫= f).
Proof.
  intros ([a|e] & e1 & Hm) Hf.
  - destruct (Hf a) as (r & e2 & Hfa). exists r, (then_effect e1 e2).
    intros st. unfold mbind, M_bind. by rewrite Hm, Hfa, apply_then_effect.
  - exists (Raise e), e1. intros st. unfold mbind, M_bind. by rewrite Hm.
Qed.

Lemma blind_try (body : M A) handler :
  blind body →
  (∀ e h, handler e = Some h → blind h) →
  blind (try_except body handler).
Proof.
  intros ([a|e] & e1 & Hbody) Hh.
  - exists (Ok a), e1. intros st. unfold try_except. by rewrite Hbody.
  - destruct (handler e) as [h|] eqn:He.
    + destruct (Hh e h He) as (r & e2 & Hrun). exists r, (then_effect e1 e2).
      intros st. unfold try_except. by rewrite Hbody, He, Hrun, apply_then_effect.
    + exists (Raise e), e1. intros st. unfold try_except. by rewrite Hbody, He.
Qed.
End Blind.

Lemma blind_print ev : blind (print ev).
Proof.
  exists (Ok tt), {| written := []; created := []; printed := [ev] |}. done.
Qed.

Lemma blind_write_file filename f : blind (write_file filename f).
Proof.
  exists (Ok tt), {| written := [(filename, f)]; created := []; printed := [] |}.
  intros st. unfold write_file, apply_effect; cbn. by rewrite app_nil_r.
Qed.

Lemma blind_makedirs path : blind (makedirs path).
Proof.
  exists (Ok tt), {| written := []; created := [path]; printed := [] |}.
  intros st. unfold makedirs, apply_effect; cbn. by rewrite app_nil_r.
Qed.

Ltac blind_step :=
  match goal with
  | |- blind (mret _) => apply blind_ret
  | |- blind (call _) => apply blind_call
  | |- blind (print _) => apply blind_print
  | |- blind (write_file _ _) => apply blind_write_file
  | |- blind (makedirs _) => apply blind_makedirs
  | |- blind (_ ≫= _) => apply blind_bind; [|intros ?]
  | |- blind (try_except _ _) =>
      apply blind_try; [|intros [] ? ?; simplify_eq/=]
  | |- blind (match ?x with _ => _ end) => destruct x
  | |- blind (let '(_, _) := ?x in _) => destruct x
  end.

Section BlindScraper.
Variable requests_get : str → result Response.

Lemma download_image_blind image_url filename :
  blind (download_image requests_get image_url filename).
Proof. unfold download_image. repeat blind_step. Qed.

Lemma resolve_name_blind tile index : blind (resolve_name tile index).
Proof. unfold resolve_name. repeat blind_step. Qed.

Lemma extract_main_image_blind tile product_folder :
  blind (extract_main_image requests_get tile product_folder).
Proof.
  unfold extract_main_image.
  repeat first [apply download_image_blind | blind_step].
Qed.

Lemma collect_buttons_blind swatch_lists :
  ∀ swatch_buttons, blind (collect_buttons swatch_lists swatch_buttons).
Proof.
  induction swatch_lists as [|swatch_list rest IH]; intros swatch_buttons;
    cbn [collect_buttons]; repeat first [apply IH | blind_step].
Qed.

Lemma process_swatch_blind product_folder swatch_index button :
  blind (process_swatch requests_get product_folder swatch_index button).
Proof.
  unfold process_swatch, activate, capture_swatch_image.
  repeat first [apply download_image_blind | blind_step].
Qed.

Lemma swatch_loop_blind product_folder swatch_buttons :
  ∀ swatch_index,
    blind (swatch_loop requests_get product_folder swatch_index swatch_buttons).
Proof.
  induction swatch_buttons as [|button rest IH]; intros swatch_index;
    cbn [swatch_loop];
    repeat first [apply IH | apply process_swatch_blind | blind_step].
Qed.

Lemma process_swatches_blind tile product_folder :
  blind (process_swatches requests_get tile product_folder).
Proof.
  unfold process_swatches.
  repeat first [apply swatch_loop_blind | apply collect_buttons_blind
               | blind_step].
Qed.

Lemma extract_details_blind tile product_name product_folder :
  blind (extract_details tile product_name product_folder).
Proof. unfold extract_details. repeat blind_step. Qed.

Lemma process_product_blind index tile :
  blind (process_product requests_get index tile).
Proof.
  unfold process_product, product_steps.
  repeat first [ apply resolve_name_blind | apply extract_main_image_blind
               | apply process_swatches_blind | apply extract_details_blind
               | blind_step ].
Qed.

Lemma product_loop_blind tiles :
  ∀ index, blind (product_loop requests_get index tiles).
Proof.
  induction tiles as [|tile rest IH]; intros index; cbn [product_loop];
    repeat first [apply IH | apply process_product_blind | blind_step].
Qed.

Lemma main_blind limit page : blind (main requests_get limit page).
Proof.
  unfold main.
  repeat first [apply product_loop_blind | blind_step].
Qed.

End BlindScraper.

Lemma write_all_union fs ws :
  write_all fs ws = list_to_map (reverse ws) ∪ fs.
Proof.
  unfold write_all. revert fs. induction ws as [|[k v] ws IH]; intros fs.
  { cbn. by rewrite (left_id_L ∅ (∪)). }
  cbn [foldl fst snd]. rewrite IH, reverse_cons, list_to_map_app.
  rewrite <- (assoc_L (∪)). f_equal.
  cbn [list_to_map foldr]. rewrite insert_union_singleton_l.
  by rewrite insert_empty.
Qed.

Lemma write_all_twice fs ws : write_all (write_all fs ws) ws = write_all fs ws.
Proof.
  rewrite !write_all_union, (assoc_L (∪)). by rewrite (idemp_L (∪)).
Qed.

Lemma create_all_union ds cs : create_all ds cs = list_to_set cs ∪ ds.
Proof.
  unfold create_all. revert ds. induction cs as [|c cs IH]; intros ds.
  { cbn. by rewrite (left_id_L ∅ (∪)). }
  cbn [foldl list_to_set foldr]. rewrite IH.
  by rewrite (assoc_L (∪)), (comm_L (∪) _ {[c]}).
Qed.

Lemma create_all_twice ds cs : create_all (create_all ds cs) cs = create_all ds cs.
Proof.
  rewrite !create_all_union, (assoc_L (∪)). by rewrite (idemp_L (∪)).
Qed.

Lemma blind_rerun (m : M unit) st :
  blind m →
  files (m (m st).2).2 = files (m st).2
  ∧ folders (m (m st).2).2 = folders (m st).2.
Proof.
  intros (r & eff & Hm). rewrite !Hm. cbn [snd apply_effect files folders].
  by rewrite write_all_twice, create_all_twice.
Qed.

Section Rerun.
Variable requests_get : str → result Response.

(** X21: a second run on the same page with the same answers of the network
    leaves the files and the folders as the first run left them. *)
Theorem rerun_changes_no_file limit page st :
  let once := (main requests_get limit page st).2 in
  let twice := (main requests_get limit page once).2 in
  files twice = files once ∧ folders twice = folders once.
Proof. apply blind_rerun, main_blind. Qed.

End Rerun.

(** ** Files are written into folders that exist *)

Global Instance preserves_preorder I : PreOrder (preserves I).
Proof.
  split.
  - intros st Hst. exact Hst.
  - intros st1 st2 st3 H12 H23 H1. apply H23, H12, H1.
Qed.

Global Instance fills_preorder folder : PreOrder (fills folder).
Proof.
  split.
  - intros st. split; [done|]. intros _ p Hp. by left.
  - intros st1 st2 st3 [Hsub12 H12] [Hsub23 H23]. split; [by etrans|].
    intros Hfolder p Hp.
    destruct (H23 (Hsub12 _ Hfolder) p Hp) as [Hp2|?]; [|by right].
    by apply H12.
Qed.

Lemma keeps_print_fills folder ev : keeps (fills folder) (print ev).
Proof. intros st. split; [done|]. intros _ p Hp. by left. Qed.

Lemma keeps_makedirs_fills folder path : keeps (fills folder) (makedirs path).
Proof.
  intros st. split; [apply union_subseteq_r|]. intros _ p Hp. by left.
Qed.

Lemma keeps_write_file_fills folder filename f :
  in_folder folder filename → keeps (fills folder) (write_file filename f).
Proof.
  intros Hin st. split; [done|]. intros _ p Hp. cbn in Hp.
  destruct (decide (filename = p)) as [<-|Hne]; [by right|].
  left. by rewrite lookup_insert_ne in Hp.
Qed.

Ltac fills_step :=
  match goal with
  | |- keeps (fills _) (print _) => apply keeps_print_fills
  | |- keeps (fills _) (makedirs _) => apply keeps_makedirs_fills
  | |- keeps (fills _) (write_file _ _) => apply keeps_write_file_fills
  | _ => run_step
  end.

Lemma swatch_name_has_no_separator swatch_index :
  contains sep (lit "swatch_" ++ str_of_nat swatch_index ++ lit ".jpg") = false.
Proof.
  unfold contains. rewrite !existsb_app, !orb_false_iff.
  split; [done|split; [|done]].
  apply not_true_iff_false. rewrite existsb_exists.
  intros (c & Hc & Heq). apply N.eqb_eq in Heq as <-.
  apply list_elem_of_In in Hc.
  pose proof (str_of_nat_digits swatch_index) as Hdigits.
  rewrite Forall_forall in Hdigits. by specialize (Hdigits _ Hc).
Qed.

Section Fills.
Variable requests_get : str → result Response.

Lemma download_image_fills folder image_url filename :
  in_folder folder filename →
  keeps (fills folder) (download_image requests_get image_url filename).
Proof. intros. unfold download_image. repeat fills_step; done. Qed.

Lemma extract_main_image_fills tile product_folder :
  keeps (fills product_folder)
    (extract_main_image requests_get tile product_folder).
Proof.
  unfold extract_main_image.
  repeat first [ apply download_image_fills;
                   exists (lit "main_image.jpg"); by split
               | fills_step ].
Qed.

Lemma collect_buttons_fills folder swatch_lists :
  ∀ swatch_buttons,
    keeps (fills folder) (collect_buttons swatch_lists swatch_buttons).
Proof.
  induction swatch_lists as [|swatch_list rest IH]; intros swatch_buttons;
    cbn [collect_buttons]; repeat first [apply IH | fills_step].
Qed.

Lemma process_swatch_fills product_folder swatch_index button :
  keeps (fills product_folder)
    (process_swatch requests_get product_folder swatch_index button).
Proof.
  unfold process_swatch, activate, capture_swatch_image.
  repeat first [ apply download_image_fills; eexists; split;
                   [apply swatch_name_has_no_separator|done]
               | fills_step ].
Qed.

Lemma swatch_loop_fills product_folder swatch_buttons :
  ∀ swatch_index,
    keeps (fills product_folder)
      (swatch_loop requests_get product_folder swatch_index swatch_buttons).
Proof.
  induction swatch_buttons as [|button rest IH]; intros swatch_index;
    cbn [swatch_loop];
    repeat first [apply IH | apply process_swatch_fills | fills_step].
Qed.

Lemma process_swatches_fills tile product_folder :
  keeps (fills product_folder)
    (process_swatches requests_get tile product_folder).
Proof.
  unfold process_swatches.
  repeat first [ apply swatch_loop_fills | apply collect_buttons_fills
               | fills_step ].
Qed.

Lemma extract_details_fills tile product_name product_folder :
  keeps (fills product_folder)
    (extract_details tile product_name product_folder).
Proof.
  unfold extract_details. repeat fills_step.
  exists (lit "product_details.csv"). by split.
Qed.

Lemma resolve_name_creates_folder tile index st :
  let run := resolve_name tile index st in
  files run.2 = files st
  ∧ folders st ⊆ folders run.2
  ∧ ∀ product_name product_folder,
      run.1 = Ok (product_name, product_folder) →
      product_folder ∈ folders run.2.
Proof.
  intros run; subst run. unfold resolve_name.
  unfold mbind, M_bind, mret, M_ret, call, print, makedirs, try_except.
  destruct (find_product_name tile) as [raw|[]];
    try (destruct (negb (truthy (strip raw))));
    cbn [fst snd files folders]; (split; [done|]);
    (split; [try done; apply union_subseteq_r|]);
    intros product_name product_folder; try done;
    intros [= <- <-]; apply elem_of_union; left; by apply elem_of_singleton.
Qed.

Lemma process_product_keeps_folders index tile st :
  files_in_created_folders st →
  files_in_created_folders (process_product requests_get index tile st).2.
Proof.
  intros Hst. unfold process_product, product_steps.
  unfold mbind at 1 2, M_bind at 1 2, try_except, call, print at 1.
  set (st_open := {| files := files st; folders := folders st;
                     output := output st ++ [EvProcessing index] |}).
  assert (files_in_created_folders st_open) as Hopen by done.
  clearbody st_open. clear Hst st.
  destruct (scroll_tile tile) as [[]|e]; [|done].
  destruct (resolve_name_creates_folder tile index st_open)
    as (Hfiles & Hfolders & Hcreated).
  unfold mbind at 1, M_bind at 1.
  destruct (resolve_name tile index st_open) as [[[product_name product_folder]|e] st0].
  2:{ intros p Hp. cbn [snd print files folders] in *.
      rewrite Hfiles in Hp. destruct (Hopen p Hp) as (folder & Hin & ?).
      exists folder. split; [by apply Hfolders|done]. }
  cbn [fst snd] in *. specialize (Hcreated _ _ eq_refl).
  match goal with
  | |- context [(?steps) st0] =>
      match steps with
      | extract_main_image _ _ _ ≫= _ =>
          assert (keeps (fills product_folder) steps) as Hsteps
      end
  end.
  { repeat first [ apply extract_main_image_fills | apply process_swatches_fills
                 | apply extract_details_fills | fills_step ]. }
  destruct (Hsteps st0) as [Hsub Hnew].
  assert (files_in_created_folders
            ((extract_main_image requests_get tile product_folder
              ≫= λ _, process_swatches requests_get tile product_folder
              ≫= λ _, extract_details tile product_name product_folder
              ≫= λ _, print (EvCompleted index product_name product_folder))
               st0).2) as Hdone.
  { intros p Hp. destruct (Hnew Hcreated p Hp) as [Hold|Hin].
    - rewrite Hfiles in Hold. destruct (Hopen p Hold) as (folder & Hin & ?).
      exists folder. split; [by apply Hsub, Hfolders|done].
    - exists product_folder. split; [by apply Hsub|done]. }
  destruct ((extract_main_image requests_get tile product_folder ≫= _) st0)
    as [[[]|e] st1]; done.
Qed.

Lemma product_loop_keeps_folders tiles :
  ∀ index,
    keeps (preserves files_in_created_folders)
      (product_loop requests_get index tiles).
Proof.
  induction tiles as [|tile rest IH]; intros index st Hst; [done|].
  rewrite product_loop_cons. by apply IH, process_product_keeps_folders.
Qed.

Lemma print_keeps_folders ev :
  keeps (preserves files_in_created_folders) (print ev).
Proof. by intros st Hst. Qed.

(** X22: [main] keeps the storage such that every file is directly in a
    folder that was created. *)
Theorem main_keeps_files_in_created_folders limit page st :
  files_in_created_folders st →
  files_in_created_folders (main requests_get limit page st).2.
Proof.
  revert st.
  change (keeps (preserves files_in_created_folders)
            (main requests_get limit page)).
  unfold main.
  repeat first [ apply product_loop_keeps_folders | apply print_keeps_folders
               | run_step ].
Qed.

End Fills.

Lemma main_keeps_files_in_created_folders_witness :
  files_in_created_folders (main shop 5 ten_chairs initial_state).2.
Proof.
  apply main_keeps_files_in_created_folders.
  intros p [f Hf]. unfold initial_state in Hf. cbn [files] in Hf.
  by rewrite lookup_empty in Hf.
Defined.
